(** * gappa: the [heat-tree] and [nhd] commands

    A shallow embedding of [run_heat_tree]
    (src/commands/examine/heat_tree.cpp) and [run_nhd]
    (src/commands/analyze/nhd.cpp), and the properties of their
    aggregation loops and of the colour normalisation of [heat-tree].

    Conventions of the embedding.
    - [double] is an interface [Double]; the program runs on its instance
      [binary64] (Rocq's primitive IEEE 754 binary64 floats).  Functions
      are written once, over the interface, and what is proved for every
      instance holds for [binary64].
    - A C++ exception is the [Throw] outcome of a [Result].
    - The body of a [#pragma omp critical] region runs atomically.  A run of
      a [#pragma omp parallel for schedule(dynamic)] loop is therefore given
      by the order in which the iterations pass through their critical
      regions; this order is an argument of the loop functions.
    - The genesis library (trees, samples, matrices, histograms, colour
      normalisation) is not part of this repository; its functions are
      [Variable]s of the section below.
    - The progress messages ([LOG_MSG], and the counter [file_count] that
      only they read) and the writing of the output files are left out;
      the commands end with what they hand to the writers. *)

From Stdlib Require Import Floats ZArith.
From stdpp Require Import base list numbers strings.

(** ** Arithmetic on [double] *)

(** The operations on [double] that the two commands use, with the literals
    that occur in them. *)
Class Double (D : Type) := {
  lit_0 : D;                (* 0.0 *)
  lit_1 : D;                (* 1.0 *)
  lit_2 : D;                (* 2.0 *)
  lit_10e4 : D;             (* 10e4, that is 100000.0 *)
  dadd : D -> D -> D;       (* a + b *)
  ddiv : D -> D -> D;       (* a / b *)
  dle : D -> D -> bool;     (* a <= b *)
  dgt : D -> D -> bool;     (* a > b *)
}.

(** IEEE 754 binary64. *)
#[export] Instance binary64 : Double float := {
  lit_0 := 0%float;
  lit_1 := 1%float;
  lit_2 := 2%float;
  lit_10e4 := 10e4%float;
  dadd := PrimFloat.add;
  ddiv := PrimFloat.div;
  dle := PrimFloat.leb;
  dgt := fun a b => PrimFloat.ltb b a;
}.

(** ** Exceptions *)

Inductive exception : Type :=
  | runtime_error (what_arg : string).

Definition what (e : exception) : string :=
  match e with runtime_error what_arg => what_arg end.

Inductive Result (A : Type) : Type :=
  | Ok (a : A)
  | Throw (e : exception).
Arguments Ok {A} a.
Arguments Throw {A} e.

#[export] Instance Result_ret : MRet Result := fun _ a => Ok a.
#[export] Instance Result_bind : MBind Result := fun _ _ f m =>
  match m with
  | Ok a => f a
  | Throw e => Throw e
  end.

Definition is_Ok {A} (r : Result A) : bool :=
  match r with Ok _ => true | Throw _ => false end.

(** [std::vector::empty]. *)
Definition vector_empty {A} (v : list A) : bool :=
  match v with [] => true | _ :: _ => false end.

(** [std::string::find(needle) != npos]. *)
Fixpoint contains (haystack needle : string) : bool :=
  String.prefix needle haystack ||
  match haystack with
  | EmptyString => false
  | String _ rest => contains rest needle
  end.

(** ** Options and colour normalisation data *)

(** [ColorNormalizationLinear] / [ColorNormalizationLogarithmic]: the
    domain and the mask value. *)
Record ColorNorm (D : Type) : Type := {
  min_value : D;
  max_value : D;
  mask_value : D;
}.
Arguments min_value {D} _.
Arguments max_value {D} _.
Arguments mask_value {D} _.

(** The setter [color_norm->min_value( v )]. *)
Definition set_min_value {D} (c : ColorNorm D) (v : D) : ColorNorm D :=
  {| min_value := v; max_value := max_value c; mask_value := mask_value c |}.
Definition set_max_value {D} (c : ColorNorm D) (v : D) : ColorNorm D :=
  {| min_value := min_value c; max_value := v; mask_value := mask_value c |}.
Definition set_mask_value {D} (c : ColorNorm D) (v : D) : ColorNorm D :=
  {| min_value := min_value c; max_value := max_value c; mask_value := v |}.

(** [ColorNormOptions]: a CLI option is [Some v] when the user passed it
    ([*option] is then true) and [None] otherwise. *)
Record ColorNormOptions (D : Type) : Type := {
  log_scaling : bool;
  min_value_option : option D;
  max_value_option : option D;
  mask_value_option : option D;
}.
Arguments log_scaling {D} _.
Arguments min_value_option {D} _.
Arguments max_value_option {D} _.
Arguments mask_value_option {D} _.

(** [*option] for a CLI option: whether the user passed it. *)
Definition passed {A} (o : option A) : bool :=
  match o with Some _ => true | None => false end.

(** [ColorMapOptions], as far as [run_heat_tree] reads it. *)
Record ColorMapOptions : Type := {
  clip_under_option : bool;
}.

(** Modelled from the spec: [ColorNormOptions::apply_options]
    (options/color/color_norm.cpp is not under src/).  Explicit user
    overrides for min, max and mask are applied on top of the defaults;
    explicit configuration always wins. *)
Definition apply_options {D} (o : ColorNormOptions D) (c : ColorNorm D)
  : ColorNorm D :=
  let c := match min_value_option o with
           | Some v => set_min_value c v | None => c end in
  let c := match max_value_option o with
           | Some v => set_max_value c v | None => c end in
  match mask_value_option o with
  | Some v => set_mask_value c v | None => c end.

(** The one message [run_heat_tree] logs with [LOG_WARN]; it prints the
    minimum of the colour normalisation. *)
Inductive LogMessage (D : Type) : Type :=
  | warn_mass_0_log_scaling (minimum : D).
Arguments warn_mass_0_log_scaling {D} minimum.

(** ** Matrices *)

(** genesis: [utils::Matrix<T>], stored row by row; [Matrix()] has no
    rows and no columns, and [empty()] is [size() == 0]. *)
Record Matrix (T : Type) : Type := {
  rows : nat;
  cols : nat;
  data : list T;
}.
Arguments rows {T} _.
Arguments cols {T} _.
Arguments data {T} _.

Definition Matrix_default {T} : Matrix T :=
  {| rows := 0; cols := 0; data := [] |}.

Definition Matrix_init {T} (rows cols : nat) (init : T) : Matrix T :=
  {| rows := rows; cols := cols; data := replicate (rows * cols) init |}.

Definition Matrix_empty {T} (m : Matrix T) : bool :=
  (rows m * cols m =? 0)%nat.

(** [m( row, col )], read and written. *)
Definition Matrix_at {T} (m : Matrix T) (row col : nat) : option T :=
  data m !! (row * cols m + col).

Definition Matrix_set {T} (m : Matrix T) (row col : nat) (v : T) : Matrix T :=
  {| rows := rows m; cols := cols m;
     data := <[row * cols m + col := v]> (data m) |}.

(** The index pairs [i < j < n], row by row. *)
Definition triangular_indices (n : nat) : list (nat * nat) :=
  i ← seq 0 n; j ← seq (S i) (n - S i); [(i, j)].

Section Commands.

Context {D : Type} `{Double D}.

(** genesis: [Tree], with the default-constructed tree [Tree()] and
    [Tree::empty()]; [Sample] with [Sample::tree()]. *)
Variables Tree Sample : Type.
Variable Tree_default : Tree.
Variable tree_empty : Tree -> bool.
Variable Sample_tree : Sample -> Tree.
(** genesis: [placement::compatible_trees( lhs, rhs )]. *)
Variable compatible_trees : Tree -> Tree -> bool.
(** genesis: [placement_mass_per_edges_with_multiplicities( sample )]. *)
Variable placement_mass_per_edges_with_multiplicities : Sample -> list D.
(** gappa options: [ColorNormOptions::get_sequential_norm()], a fresh
    linear or logarithmic normalisation. *)
Variable get_sequential_norm : ColorNormOptions D -> ColorNorm D.
(** genesis: [ColorNormalizationLinear::autoscale( values )]. *)
Variable autoscale : ColorNorm D -> list D -> ColorNorm D.

(** * [run_heat_tree] *)

(** One input file: [options.jplace_input.file_path( fi )] and
    [options.jplace_input.sample( fi )], read with all normalisations
    applied. *)
Record JplaceFile : Type := {
  file_path : string;
  sample : Sample;
}.

(** [HeatTreeOptions], as far as [run_heat_tree] reads it after its output
    file checks. *)
Record HeatTreeOptions : Type := {
  jplace_input : list JplaceFile;
  mass_norm_relative : bool;
  color_norm : ColorNormOptions D;
  color_map : ColorMapOptions;
}.

(** The results prepared before the loop: [Tree tree;] and
    [std::vector<double> total_masses;]. *)
Record Accumulated : Type := {
  tree : Tree;
  total_masses : list D;
}.

Definition prepare_results : Accumulated :=
  {| tree := Tree_default; total_masses := [] |}.

Definition differing_reference_trees : exception :=
  runtime_error "Input jplace files have differing reference trees.".

(** The critical region [GAPPA_VISUALIZE_ACCUMULATE] of one iteration.
    When the sizes agree, the indexed loop
    [total_masses[i] += masses[i]] is [zip_with dadd]. *)
Definition accumulate (acc : Accumulated) (f : JplaceFile)
  : Result Accumulated :=
  let masses := placement_mass_per_edges_with_multiplicities (sample f) in
  tree' ← (if tree_empty (tree acc) then
             Ok (Sample_tree (sample f))
           else if negb (compatible_trees (tree acc) (Sample_tree (sample f))) then
             Throw differing_reference_trees
           else
             Ok (tree acc));
  total' ← (if vector_empty (total_masses acc) then
              Ok masses
            else if negb (length (total_masses acc) =? length masses)%nat then
              Throw differing_reference_trees
            else
              Ok (zip_with dadd (total_masses acc) masses));
  Ok {| tree := tree'; total_masses := total' |}.

(** The parallel loop over the files; [processed] lists the files in the
    order in which their iterations enter the critical region.  An
    exception ends the run. *)
Fixpoint read_and_accumulate (processed : list JplaceFile) (acc : Accumulated)
  : Result Accumulated :=
  match processed with
  | [] => Ok acc
  | f :: rest => acc' ← accumulate acc f; read_and_accumulate rest acc'
  end.

(** [std::accumulate( begin, end, 0.0 )]. *)
Definition accumulate_sum (v : list D) : D :=
  foldl dadd lit_0 v.

(** Lines 156-162: the normalisation for relative masses. *)
Definition normalize_relative (relative : bool) (total_masses : list D)
  : list D :=
  if relative then
    let sum := accumulate_sum total_masses in
    map (fun v => ddiv v sum) total_masses
  else total_masses.

(** Lines 172-190: the default minimum, from the autoscaled norm. *)
Definition default_min_value (log_scaling : bool) (norm : ColorNorm D)
  : ColorNorm D :=
  if log_scaling then
    if dle (min_value norm) lit_0 then
      if dgt (max_value norm) lit_1 then
        set_min_value norm lit_1
      else
        set_min_value norm (ddiv (max_value norm) lit_10e4)
    else norm
  else
    set_min_value norm lit_0.

(** Lines 209-213: the rewriting of the values that a logarithm cannot
    take. *)
Definition rewrite_non_positive (norm : ColorNorm D) (total_masses : list D)
  : list D :=
  map (fun v => if dle v lit_0 then ddiv (min_value norm) lit_2 else v)
      total_masses.

(** What [run_heat_tree] hands to [color_map( *color_norm, total_masses )]
    and [write_tree_to_files], and what it has logged as warnings. *)
Record HeatTreeOutput : Type := {
  out_tree : Tree;
  out_masses : list D;
  out_norm : ColorNorm D;
  out_warnings : list (LogMessage D);
}.

(** Lines 164-215: colour normalisation of the accumulated masses. *)
Definition normalize_colors (options : HeatTreeOptions) (acc : Accumulated)
  : HeatTreeOutput :=
  let norm := autoscale (get_sequential_norm (color_norm options))
                        (total_masses acc) in
  let auto_min := min_value norm in
  let norm := default_min_value (log_scaling (color_norm options)) norm in
  let norm := apply_options (color_norm options) norm in
  if log_scaling (color_norm options) && dle auto_min lit_0 then
    if negb (passed (min_value_option (color_norm options)))
       && negb (clip_under_option (color_map options)) then
      {| out_tree := tree acc; out_masses := total_masses acc;
         out_norm := norm;
         out_warnings := [warn_mass_0_log_scaling (min_value norm)] |}
    else
      {| out_tree := tree acc;
         out_masses := rewrite_non_positive norm (total_masses acc);
         out_norm := norm; out_warnings := [] |}
  else
    {| out_tree := tree acc; out_masses := total_masses acc;
       out_norm := norm; out_warnings := [] |}.

(** [run_heat_tree], from "Prepare results" on.  [processed] is the order
    in which the files pass the critical region: a permutation of
    [jplace_input options]. *)
Definition run_heat_tree (options : HeatTreeOptions)
    (processed : list JplaceFile) : Result HeatTreeOutput :=
  acc ← read_and_accumulate processed prepare_results;
  let acc := {| tree := tree acc;
                total_masses := normalize_relative (mass_norm_relative options)
                                                   (total_masses acc) |} in
  Ok (normalize_colors options acc).

(** * [run_nhd] *)

(** genesis: [NodeDistanceHistogramSet], and the default-constructed one. *)
Variable NodeDistanceHistogramSet : Type.
Variable NodeDistanceHistogramSet_default : NodeDistanceHistogramSet.
(** genesis: [node_branch_length_distance_matrix( tree )] and
    [node_root_direction_matrix( tree )]. *)
Variable node_branch_length_distance_matrix : Tree -> Matrix D.
Variable node_root_direction_matrix : Tree -> Matrix Z.
(** genesis:
    [node_distance_histogram_set( sample, node_distances, node_sides, bins )],
    which may throw. *)
Variable node_distance_histogram_set :
  Sample -> Matrix D -> Matrix Z -> nat -> Result NodeDistanceHistogramSet.
(** genesis: the distance between two histogram sets. *)
Variable histogram_set_distance :
  NodeDistanceHistogramSet -> NodeDistanceHistogramSet -> D.

(** [NhdOptions], as far as [run_nhd] reads it after its output file
    check. *)
Record NhdOptions : Type := {
  nhd_jplace_input : list JplaceFile;
  bins : nat;
}.

(** The storage prepared before the loop.  [builders] is not a variable
    of the program: it records the iterations that computed the
    matrices. *)
Record NhdStorage : Type := {
  node_distances : Matrix D;
  node_sides : Matrix Z;
  hist_vecs : list NodeDistanceHistogramSet;
  builders : list nat;
}.

Definition prepare_storage (options : NhdOptions) : NhdStorage :=
  let set_size := length (nhd_jplace_input options) in
  {| node_distances := Matrix_default;
     node_sides := Matrix_default;
     hist_vecs := replicate set_size NodeDistanceHistogramSet_default;
     builders := [] |}.

(** The two parts of iteration [fi]: the critical region
    [GAPPA_NHD_CALCULATE_MATRICES], and the histograms of the sample,
    outside of it. *)
Inductive LoopStep : Type :=
  | CalculateMatrices (fi : nat)
  | FillHistograms (fi : nat).

(** One part of one iteration.  The loop only runs [fi < set_size]; for
    another index nothing happens. *)
Definition loop_step (options : NhdOptions) (st : NhdStorage) (s : LoopStep)
  : Result NhdStorage :=
  match s with
  | CalculateMatrices fi =>
      match nhd_jplace_input options !! fi with
      | Some f =>
          if Matrix_empty (node_distances st) then
            Ok {| node_distances :=
                    node_branch_length_distance_matrix (Sample_tree (sample f));
                  node_sides :=
                    node_root_direction_matrix (Sample_tree (sample f));
                  hist_vecs := hist_vecs st;
                  builders := builders st ++ [fi] |}
          else Ok st
      | None => Ok st
      end
  | FillHistograms fi =>
      match nhd_jplace_input options !! fi with
      | Some f =>
          h ← node_distance_histogram_set
                (sample f) (node_distances st) (node_sides st) (bins options);
          Ok {| node_distances := node_distances st;
                node_sides := node_sides st;
                hist_vecs := <[fi := h]> (hist_vecs st);
                builders := builders st |}
      | None => Ok st
      end
  end.

(** The parallel loop, along an interleaving of the parts of its
    iterations. *)
Fixpoint load_files (options : NhdOptions) (steps : list LoopStep)
    (st : NhdStorage) : Result NhdStorage :=
  match steps with
  | [] => Ok st
  | s :: rest => st' ← loop_step options st s; load_files options rest st'
  end.

(** The interleavings of the loop over [set_size] files: every iteration
    runs its critical region once and fills its histograms once,
    afterwards. *)
Fixpoint interleaving_from (set_size : nat) (entered filled : list nat)
    (steps : list LoopStep) : bool :=
  match steps with
  | [] => (length filled =? set_size)%nat
  | CalculateMatrices fi :: rest =>
      (fi <? set_size)%nat && negb (bool_decide (fi ∈ entered))
      && interleaving_from set_size (fi :: entered) filled rest
  | FillHistograms fi :: rest =>
      bool_decide (fi ∈ entered) && negb (bool_decide (fi ∈ filled))
      && interleaving_from set_size entered (fi :: filled) rest
  end.

Definition interleaving (set_size : nat) (steps : list LoopStep) : bool :=
  interleaving_from set_size [] [] steps.

(** The run of one thread. *)
Definition sequential (set_size : nat) : list LoopStep :=
  fi ← seq 0 set_size; [CalculateMatrices fi; FillHistograms fi].

(** Modelled from the spec: genesis's
    [node_histogram_distance( hist_vecs )] is not under src/.  The result
    is an N x N matrix, zero on the diagonal; the distance is computed for
    the pairs [i < j] only and mirrored. *)
Definition node_histogram_distance (hist_vecs : list NodeDistanceHistogramSet)
  : Matrix D :=
  let set_size := length hist_vecs in
  foldl (fun result '(i, j) =>
           match hist_vecs !! i, hist_vecs !! j with
           | Some lhs, Some rhs =>
               let dist := histogram_set_distance lhs rhs in
               Matrix_set (Matrix_set result i j dist) j i dist
           | _, _ => result
           end)
        (Matrix_init set_size set_size lit_0)
        (triangular_indices set_size).

(** [run_nhd], from "Prepare storage" on; what it hands to
    [write_matrix]. *)
Definition run_nhd (options : NhdOptions) (steps : list LoopStep)
  : Result (Matrix D) :=
  st ← load_files options steps (prepare_storage options);
  Ok (node_histogram_distance (hist_vecs st)).

(** * Properties of [run_heat_tree] *)

(** ** Notions for the statements *)

(** What the loop does on samples that agree: the new masses replace an
    empty vector and are added to any other. *)
Definition add_masses (total masses : list D) : list D :=
  if vector_empty total then masses else zip_with dadd total masses.


(** A matrix of pairwise distances over [n] samples. *)
Definition distance_matrix (n : nat) (m : Matrix D) : Prop :=
  rows m = n /\ cols m = n /\ length (data m) = n * n /\
  forall i j, i < n -> j < n ->
    exists v, Matrix_at m i j = Some v /\ Matrix_at m j i = Some v /\
              dle lit_0 v = true /\ (i = j -> v = lit_0).

(** ** The accumulation loop *)


Lemma read_and_accumulate_app pre post acc :
  read_and_accumulate (pre ++ post) acc
  = (acc' ← read_and_accumulate pre acc; read_and_accumulate post acc').
Proof.
  revert acc. induction pre as [|f pre IH]; intros acc; simpl; [done|].
  destruct (accumulate acc f) as [acc'|e]; simpl; [apply IH|done].
Qed.

(** The loop raises one exception only. *)
Lemma accumulate_Throw acc f e :
  accumulate acc f = Throw e -> e = differing_reference_trees.
Proof.
  unfold accumulate. intros Hthrow.
  repeat (case_match; simpl in *; simplify_eq); done.
Qed.

Lemma read_and_accumulate_Throw processed acc e :
  read_and_accumulate processed acc = Throw e ->
  e = differing_reference_trees.
Proof.
  revert acc. induction processed as [|f rest IH]; intros acc; simpl; [done|].
  destruct (accumulate acc f) as [acc'|e'] eqn:Hacc; simpl.
  - apply IH.
  - intros [= <-]. by eapply accumulate_Throw.
Qed.

(** The tree check of an iteration that meets a published, non-empty
    reference tree. *)
Lemma accumulate_incompatible_tree acc f :
  tree_empty (tree acc) = false ->
  compatible_trees (tree acc) (Sample_tree (sample f)) = false ->
  accumulate acc f = Throw differing_reference_trees.
Proof. unfold accumulate. by intros -> ->. Qed.

Lemma accumulate_Ok_compatible acc f acc' :
  accumulate acc f = Ok acc' ->
  tree_empty (tree acc) = false ->
  compatible_trees (tree acc) (Sample_tree (sample f)) = true.
Proof.
  intros Hok Hne.
  destruct (compatible_trees _ _) eqn:Hc; [done|].
  by rewrite (accumulate_incompatible_tree _ _ Hne Hc) in Hok.
Qed.

(** The size check of an iteration that meets a non-empty mass vector. *)
Lemma accumulate_differing_size acc f :
  vector_empty (total_masses acc) = false ->
  length (total_masses acc)
  <> length (placement_mass_per_edges_with_multiplicities (sample f)) ->
  accumulate acc f = Throw differing_reference_trees.
Proof.
  unfold accumulate. intros -> Hlen%Nat.eqb_neq. rewrite Hlen.
  by repeat (case_match; simpl).
Qed.



(** *** Vectors of masses under a commutative addition *)

Section Commutative.

Hypothesis dadd_comm : forall a b : D, dadd a b = dadd b a.


End Commutative.

(** ** The run as a whole *)

Lemma run_heat_tree_Ok options processed acc :
  read_and_accumulate processed prepare_results = Ok acc ->
  run_heat_tree options processed
  = Ok (normalize_colors options
          {| tree := tree acc;
             total_masses := normalize_relative (mass_norm_relative options)
                                                (total_masses acc) |}).
Proof. unfold run_heat_tree. by intros ->. Qed.

Lemma run_heat_tree_Throw options processed e :
  run_heat_tree options processed = Throw e ->
  read_and_accumulate processed prepare_results = Throw e.
Proof.
  unfold run_heat_tree.
  destruct (read_and_accumulate processed prepare_results); simpl; [done|].
  by intros [= ->].
Qed.

(** ** Colour normalisation *)

Lemma min_value_apply_options (o : ColorNormOptions D) (norm : ColorNorm D) :
  min_value (apply_options o norm)
  = match min_value_option o with Some m => m | None => min_value norm end.
Proof.
  unfold apply_options.
  by destruct (min_value_option o), (max_value_option o), (mask_value_option o).
Qed.

Lemma lookup_rewrite_non_positive norm (masses : list D) i :
  rewrite_non_positive norm masses !! i
  = (fun v => if dle v lit_0 then ddiv (min_value norm) lit_2 else v)
      <$> masses !! i.
Proof. unfold rewrite_non_positive. apply list_lookup_fmap. Qed.

Lemma out_norm_normalize_colors options acc :
  out_norm (normalize_colors options acc)
  = apply_options (color_norm options)
      (default_min_value (log_scaling (color_norm options))
         (autoscale (get_sequential_norm (color_norm options))
                    (total_masses acc))).
Proof.
  unfold normalize_colors.
  destruct (log_scaling (color_norm options) && _); [|done].
  by destruct (negb _ && _).
Qed.

(** C2: under log scaling, an autoscaled minimum <= 0 is replaced by 1.0
    when the autoscaled maximum is > 1 and by the maximum divided by 10^5
    otherwise; this is the norm that the user overrides are then applied
    to, and the final minimum when the user gave none. *)
Theorem default_min_value_log_scaling options acc :
  let auto := autoscale (get_sequential_norm (color_norm options))
                        (total_masses acc) in
  let fixed := if dgt (max_value auto) lit_1 then lit_1
               else ddiv (max_value auto) lit_10e4 in
  log_scaling (color_norm options) = true ->
  dle (min_value auto) lit_0 = true ->
  min_value (default_min_value true auto) = fixed /\
  max_value (default_min_value true auto) = max_value auto /\
  out_norm (normalize_colors options acc)
  = apply_options (color_norm options) (default_min_value true auto) /\
  (min_value_option (color_norm options) = None ->
   min_value (out_norm (normalize_colors options acc)) = fixed).
Proof.
  intros auto fixed Hlog Hmin.
  assert (Hfixed : min_value (default_min_value true auto) = fixed).
  { unfold default_min_value, fixed. rewrite Hmin.
    by destruct (dgt (max_value auto) lit_1). }
  split; [done|]. split.
  { unfold default_min_value. rewrite Hmin.
    by destruct (dgt (max_value auto) lit_1). }
  split.
  { rewrite out_norm_normalize_colors, Hlog. done. }
  intros Hnone.
  rewrite out_norm_normalize_colors, min_value_apply_options, Hnone, Hlog.
  done.
Qed.

(** C3: under log scaling with an autoscaled minimum <= 0, the run warns
    and leaves the masses alone when the user gave neither a minimum nor
    clip-under; otherwise it does not warn and every value <= 0 becomes
    half of the final minimum, which is the user's minimum if there is
    one. *)
Theorem normalize_colors_non_positive options acc :
  let auto := autoscale (get_sequential_norm (color_norm options))
                        (total_masses acc) in
  let out := normalize_colors options acc in
  log_scaling (color_norm options) = true ->
  dle (min_value auto) lit_0 = true ->
  (min_value_option (color_norm options) = None /\
   clip_under_option (color_map options) = false ->
   out_warnings out = [warn_mass_0_log_scaling (min_value (out_norm out))] /\
   out_masses out = total_masses acc) /\
  (is_Some (min_value_option (color_norm options)) \/
   clip_under_option (color_map options) = true ->
   out_warnings out = [] /\
   length (out_masses out) = length (total_masses acc) /\
   forall i v, total_masses acc !! i = Some v ->
     out_masses out !! i
     = Some (if dle v lit_0 then ddiv (min_value (out_norm out)) lit_2
             else v)) /\
  (forall m, min_value_option (color_norm options) = Some m ->
   min_value (out_norm out) = m /\
   forall i v, total_masses acc !! i = Some v -> dle v lit_0 = true ->
     out_masses out !! i = Some (ddiv m lit_2)).
Proof.
  intros auto out Hlog Hmin.
  assert (Hrewrite :
    is_Some (min_value_option (color_norm options)) \/
    clip_under_option (color_map options) = true ->
    out_warnings out = [] /\
    out_norm out = apply_options (color_norm options)
                     (default_min_value true auto) /\
    out_masses out = rewrite_non_positive (out_norm out) (total_masses acc)).
  { intros Hexplicit. unfold out, normalize_colors. fold auto.
    rewrite Hlog, Hmin. simpl.
    destruct Hexplicit as [[m Hm]|Hclip].
    - by rewrite Hm.
    - rewrite Hclip, andb_false_r. done. }
  split; [|split].
  - intros [Hnone Hclip]. unfold out, normalize_colors. fold auto.
    by rewrite Hlog, Hmin, Hnone, Hclip.
  - intros Hexplicit. destruct (Hrewrite Hexplicit) as (Hwarn & _ & Hmasses).
    split; [done|]. rewrite Hmasses. split.
    + unfold rewrite_non_positive. apply length_fmap.
    + intros i v Hv. by rewrite lookup_rewrite_non_positive, Hv.
  - intros m Hm.
    destruct Hrewrite as (_ & Hnorm & Hmasses); [left; by eexists|].
    assert (Hfinal : min_value (out_norm out) = m).
    { by rewrite Hnorm, min_value_apply_options, Hm. }
    split; [done|]. intros i v Hv Hle.
    by rewrite Hmasses, lookup_rewrite_non_positive, Hv, Hfinal; simpl; rewrite Hle.
Qed.

Lemma run_heat_tree_incompatible_tree options pre f post acc :
  read_and_accumulate pre prepare_results = Ok acc ->
  tree_empty (tree acc) = false ->
  compatible_trees (tree acc) (Sample_tree (sample f)) = false ->
  run_heat_tree options (pre ++ f :: post) = Throw differing_reference_trees.
Proof.
  intros Hpre Hne Hc. unfold run_heat_tree.
  rewrite read_and_accumulate_app, Hpre. simpl.
  by rewrite accumulate_incompatible_tree.
Qed.

Lemma run_heat_tree_differing_size options pre f post acc :
  read_and_accumulate pre prepare_results = Ok acc ->
  vector_empty (total_masses acc) = false ->
  length (total_masses acc)
  <> length (placement_mass_per_edges_with_multiplicities (sample f)) ->
  run_heat_tree options (pre ++ f :: post) = Throw differing_reference_trees.
Proof.
  intros Hpre Hne Hlen. unfold run_heat_tree.
  rewrite read_and_accumulate_app, Hpre. simpl.
  by rewrite accumulate_differing_size.
Qed.

(** * Properties of [run_nhd] *)

(** ** The loading loop *)

Lemma load_files_app options pre post st :
  load_files options (pre ++ post) st
  = (st' ← load_files options pre st; load_files options post st').
Proof.
  revert st. induction pre as [|s pre IH]; intros st; simpl; [done|].
  destruct (loop_step options st s) as [st'|e]; simpl; [apply IH|done].
Qed.

(** A step that throws is a step that fills the histograms, and the
    exception is the one of [node_distance_histogram_set]. *)
Lemma loop_step_Throw options st s e :
  loop_step options st s = Throw e ->
  exists fi f,
    s = FillHistograms fi /\ nhd_jplace_input options !! fi = Some f /\
    node_distance_histogram_set
      (sample f) (node_distances st) (node_sides st) (bins options) = Throw e.
Proof.
  destruct s as [fi|fi]; simpl.
  - by repeat case_match.
  - destruct (nhd_jplace_input options !! fi) as [f|] eqn:Hf; [|done].
    destruct (node_distance_histogram_set _ _ _ _) as [h|e'] eqn:Hh;
      simpl; [done|].
    intros [= <-]. by exists fi, f.
Qed.

Lemma loop_step_length options st s st' :
  loop_step options st s = Ok st' ->
  length (hist_vecs st') = length (hist_vecs st).
Proof.
  destruct s as [fi|fi]; simpl;
    destruct (nhd_jplace_input options !! fi) as [f|]; try by intros [= ->].
  - destruct (Matrix_empty _); by intros [= <-].
  - destruct (node_distance_histogram_set _ _ _ _) as [h|e]; simpl; [|done].
    intros [= <-]. simpl. apply length_insert.
Qed.

Lemma load_files_length options steps st st' :
  load_files options steps st = Ok st' ->
  length (hist_vecs st') = length (hist_vecs st).
Proof.
  revert st. induction steps as [|s rest IH]; intros st; simpl.
  - by intros [= ->].
  - destruct (loop_step options st s) as [st1|e] eqn:Hstep; simpl; [|done].
    intros Hrest. rewrite (IH _ Hrest). by eapply loop_step_length.
Qed.

(** Once the distance matrix is not empty, no step changes the matrices. *)
Lemma loop_step_built options st s st' :
  Matrix_empty (node_distances st) = false ->
  loop_step options st s = Ok st' ->
  node_distances st' = node_distances st /\
  node_sides st' = node_sides st /\
  builders st' = builders st.
Proof.
  intros Hbuilt. destruct s as [fi|fi]; simpl; rewrite ?Hbuilt;
    destruct (nhd_jplace_input options !! fi) as [f|]; try by intros [= ->].
  destruct (node_distance_histogram_set _ _ _ _) as [h|e]; simpl; [|done].
  by intros [= <-].
Qed.

Lemma load_files_built options steps st st' :
  Matrix_empty (node_distances st) = false ->
  load_files options steps st = Ok st' ->
  node_distances st' = node_distances st /\
  node_sides st' = node_sides st /\
  builders st' = builders st.
Proof.
  revert st. induction steps as [|s rest IH]; intros st Hbuilt; simpl.
  - by intros [= ->].
  - destruct (loop_step options st s) as [st1|e] eqn:Hstep; simpl; [|done].
    intros Hrest.
    destruct (loop_step_built _ _ _ _ Hbuilt Hstep) as (Hd & Hs & Hb).
    destruct (IH st1) as (Hd' & Hs' & Hb'); [by rewrite Hd|done|].
    by rewrite Hd', Hs', Hb'.
Qed.

(** An interleaving over at least one file begins with a critical
    region. *)
Lemma interleaving_head set_size steps :
  interleaving set_size steps = true -> 0 < set_size ->
  exists fi rest, steps = CalculateMatrices fi :: rest /\ fi < set_size.
Proof.
  unfold interleaving. destruct steps as [|[fi|fi] rest]; simpl.
  - destruct set_size; [lia|done].
  - intros (Hfi%andb_true_iff & _)%andb_true_iff ?.
    destruct Hfi as [Hfi%Nat.ltb_lt _]. by exists fi, rest.
  - done.
Qed.

Lemma interleaving_empty steps :
  interleaving 0 steps = true -> steps = [].
Proof.
  unfold interleaving. destruct steps as [|[fi|fi] rest]; simpl; [done| |].
  - destruct (fi <? 0)%nat eqn:Hfi; [apply Nat.ltb_lt in Hfi; lia|done].
  - done.
Qed.

(** C5: in every interleaving of the loop over at least one file, whose
    trees give non-empty matrices, the matrices are built by the iteration
    that enters the critical region first, from its sample, and by no
    other; from then on every state of the loop, and so every state in
    which histograms are filled, holds these matrices. *)
Theorem matrices_built_once options steps :
  let files := nhd_jplace_input options in
  forallb (fun f => negb (Matrix_empty (node_branch_length_distance_matrix
                                          (Sample_tree (sample f)))))
          files = true ->
  interleaving (length files) steps = true ->
  0 < length files ->
  exists fi0 f0,
    head steps = Some (CalculateMatrices fi0) /\
    files !! fi0 = Some f0 /\
    (forall pre post st,
       steps = pre ++ post -> pre <> [] ->
       load_files options pre (prepare_storage options) = Ok st ->
       builders st = [fi0] /\
       Matrix_empty (node_distances st) = false /\
       node_distances st
       = node_branch_length_distance_matrix (Sample_tree (sample f0)) /\
       node_sides st = node_root_direction_matrix (Sample_tree (sample f0))) /\
    (forall pre fi post st,
       steps = pre ++ FillHistograms fi :: post ->
       load_files options pre (prepare_storage options) = Ok st ->
       builders st = [fi0] /\
       Matrix_empty (node_distances st) = false /\
       node_distances st
       = node_branch_length_distance_matrix (Sample_tree (sample f0)) /\
       node_sides st = node_root_direction_matrix (Sample_tree (sample f0))).
Proof.
  intros files Hnonempty Hsteps Hfiles.
  destruct (interleaving_head _ _ Hsteps Hfiles) as (fi0 & rest & -> & Hfi0).
  destruct (lookup_lt_is_Some_2 files fi0 Hfi0) as [f0 Hf0].
  exists fi0, f0. split; [done|]. split; [done|].
  assert (Hf0_built :
    Matrix_empty (node_branch_length_distance_matrix
                    (Sample_tree (sample f0))) = false).
  { rewrite forallb_forall in Hnonempty.
    apply negb_true_iff, Hnonempty, list_elem_of_In.
    by eapply list_elem_of_lookup_2. }
  assert (Hprefix : forall pre post st,
    CalculateMatrices fi0 :: rest = pre ++ post -> pre <> [] ->
    load_files options pre (prepare_storage options) = Ok st ->
    builders st = [fi0] /\
    Matrix_empty (node_distances st) = false /\
    node_distances st
    = node_branch_length_distance_matrix (Sample_tree (sample f0)) /\
    node_sides st = node_root_direction_matrix (Sample_tree (sample f0))).
  { intros [|s pre] post st Heq Hne; [done|]. simpl in Heq.
    injection Heq as <- _. simpl. fold files. rewrite Hf0. simpl.
    intros Hload. apply load_files_built in Hload as (Hd & Hs & Hb); [|done].
    simpl in *. by rewrite Hd, Hs, Hb. }
  split; [exact Hprefix|].
  intros pre fi post st Heq. apply (Hprefix pre (FillHistograms fi :: post)).
  - done.
  - intros ->. done.
Qed.

(** ** The pairwise distances *)

Lemma index_inj n i j a b :
  j < n -> b < n -> i * n + j = a * n + b -> i = a /\ j = b.
Proof.
  intros Hj Hb Heq.
  destruct (Nat.lt_trichotomy i a) as [Hlt|[->|Hgt]].
  - assert (S i * n <= a * n) by (apply Nat.mul_le_mono_r; lia). lia.
  - lia.
  - assert (S a * n <= i * n) by (apply Nat.mul_le_mono_r; lia). lia.
Qed.

Lemma Matrix_at_set {T} (m : Matrix T) n r c v i j :
  cols m = n -> length (data m) = n * n ->
  r < n -> c < n -> i < n -> j < n ->
  Matrix_at (Matrix_set m r c v) i j
  = if decide (i = r /\ j = c) then Some v else Matrix_at m i j.
Proof.
  intros Hcols Hlen ? ? ? ?. unfold Matrix_at, Matrix_set. simpl.
  rewrite Hcols, list_lookup_insert.
  destruct (decide (i = r /\ j = c)) as [[-> ->]|Hne].
  - rewrite decide_True; [done|]. split; [done|]. rewrite Hlen. nia.
  - rewrite decide_False; [done|]. intros [Heq _].
    apply index_inj in Heq as [-> ->]; auto.
Qed.

Lemma distance_matrix_init n :
  dle lit_0 lit_0 = true -> distance_matrix n (Matrix_init n n lit_0).
Proof.
  intros Hzero. unfold distance_matrix, Matrix_init, Matrix_at; simpl.
  rewrite length_replicate. do 3 (split; [done|]).
  intros i j Hi Hj. exists lit_0.
  rewrite !lookup_replicate_2 by nia. done.
Qed.

Lemma distance_matrix_set n m a b dist :
  distance_matrix n m -> a < b -> b < n -> dle lit_0 dist = true ->
  distance_matrix n (Matrix_set (Matrix_set m a b dist) b a dist).
Proof.
  intros (Hrows & Hcols & Hlen & Hm) Hab Hb Hdist.
  do 3 (split; [by simpl; rewrite ?length_insert|]).
  intros i j Hi Hj.
  rewrite !(Matrix_at_set _ n) by (simpl; rewrite ?length_insert; auto with lia).
  destruct (Hm i j Hi Hj) as (v & Hij & Hji & Hv & Hdiag).
  destruct (decide (i = b /\ j = a)) as [[-> ->]|Hne1].
  { exists dist. rewrite decide_False by lia. rewrite decide_True by done.
    repeat split; auto with lia. }
  destruct (decide (i = a /\ j = b)) as [[-> ->]|Hne2].
  { exists dist. rewrite decide_True by done. repeat split; auto with lia. }
  exists v. rewrite !decide_False by lia. done.
Qed.

Lemma elem_of_triangular_indices n i j :
  (i, j) ∈ triangular_indices n -> i < j /\ j < n.
Proof.
  unfold triangular_indices. intros (i' & Hj & Hi)%list_elem_of_bind.
  apply list_elem_of_bind in Hj as (j' & Hij & Hj).
  apply list_elem_of_singleton in Hij as [= -> ->].
  apply elem_of_seq in Hi, Hj. lia.
Qed.

Lemma node_histogram_distance_matrix hist_vecs :
  dle lit_0 lit_0 = true ->
  (forall lhs rhs, dle lit_0 (histogram_set_distance lhs rhs) = true) ->
  distance_matrix (length hist_vecs) (node_histogram_distance hist_vecs).
Proof.
  intros Hzero Hdist. unfold node_histogram_distance.
  set (n := length hist_vecs).
  assert (Hpairs : forall i j, (i, j) ∈ triangular_indices n -> i < j /\ j < n)
    by apply elem_of_triangular_indices.
  assert (Hinit := distance_matrix_init n Hzero).
  revert Hpairs Hinit.
  generalize (Matrix_init n n lit_0) as result.
  generalize (triangular_indices n) as pairs.
  induction pairs as [|[i j] pairs IH]; intros result Hpairs Hresult; simpl.
  { done. }
  destruct (Hpairs i j) as [Hij Hj]; [left|].
  apply IH.
  - intros i' j' Hin. apply Hpairs. by right.
  - destruct (hist_vecs !! i) as [lhs|]; [|done].
    destruct (hist_vecs !! j) as [rhs|]; [|done].
    by apply distance_matrix_set.
Qed.

(** C8: over any N histogram sets, the matrix of pairwise distances is
    N x N, zero on the diagonal, symmetric and nowhere negative, for a
    distance between two histogram sets that is never negative; it is the
    matrix that a run of [run_nhd] over N files yields. *)
Theorem node_histogram_distance_symmetric histogram_sets :
  dle lit_0 lit_0 = true ->
  (forall lhs rhs, dle lit_0 (histogram_set_distance lhs rhs) = true) ->
  let M := node_histogram_distance histogram_sets in
  let N := length histogram_sets in
  (rows M = N /\ cols M = N /\
   forall i j, i < N -> j < N ->
     exists v w, Matrix_at M i j = Some v /\ Matrix_at M j i = Some w /\
                 v = w /\ dle lit_0 v = true /\
                 Matrix_at M i i = Some lit_0) /\
  (forall options steps M',
     length (nhd_jplace_input options) = N ->
     run_nhd options steps = Ok M' ->
     exists hist_vecs', length hist_vecs' = N /\
                        M' = node_histogram_distance hist_vecs').
Proof.
  intros Hzero Hdist M N.
  destruct (node_histogram_distance_matrix histogram_sets Hzero Hdist)
    as (Hrows & Hcols & _ & Hm).
  split.
  - split; [done|]. split; [done|]. intros i j Hi Hj.
    destruct (Hm i j Hi Hj) as (v & Hij & Hji & Hv & _).
    destruct (Hm i i Hi Hi) as (d & Hii & _ & _ & Hd).
    exists v, v. rewrite Hd in Hii by done. done.
  - intros options steps M' Hlen. unfold run_nhd.
    destruct (load_files options steps (prepare_storage options))
      as [st|e] eqn:Hload; simpl; [|done].
    intros [= <-]. exists (hist_vecs st). split; [|done].
    rewrite (load_files_length _ _ _ _ Hload). simpl.
    by rewrite length_replicate.
Qed.

(** * The checks of the two commands *)

(** C1, as the code has it: [run_heat_tree] checks the tree of every
    sample that meets a published (non-empty) reference tree, before the
    masses of the sample are added, and a mismatch ends the run;
    [run_nhd] does not check the trees: the histogram set that
    [node_distance_histogram_set] returns for a sample is contributed,
    whatever the tree of the sample. *)
Theorem trees_validated_in_heat_tree_only :
  (forall options pre f post acc,
     read_and_accumulate pre prepare_results = Ok acc ->
     tree_empty (tree acc) = false ->
     compatible_trees (tree acc) (Sample_tree (sample f)) = false ->
     run_heat_tree options (pre ++ f :: post)
     = Throw differing_reference_trees) /\
  (forall acc f acc',
     accumulate acc f = Ok acc' ->
     tree_empty (tree acc) = false ->
     compatible_trees (tree acc) (Sample_tree (sample f)) = true) /\
  (forall options st fi f h,
     nhd_jplace_input options !! fi = Some f ->
     node_distance_histogram_set
       (sample f) (node_distances st) (node_sides st) (bins options) = Ok h ->
     loop_step options st (FillHistograms fi)
     = Ok {| node_distances := node_distances st;
             node_sides := node_sides st;
             hist_vecs := <[fi := h]> (hist_vecs st);
             builders := builders st |}).
Proof.
  split; [|split].
  - intros. by eapply run_heat_tree_incompatible_tree.
  - intros. by eapply accumulate_Ok_compatible.
  - intros options st fi f h Hf Hh. simpl. by rewrite Hf, Hh.
Qed.

(** C4, as the code has it: a sample whose tree is incompatible with the
    published reference tree, and a sample whose mass vector differs in
    length from a non-empty accumulated vector, end the run with an
    exception; every exception of the run carries the one fixed message,
    in which no file is named. *)
Theorem differing_samples_abort :
  (forall options pre f post acc,
     read_and_accumulate pre prepare_results = Ok acc ->
     tree_empty (tree acc) = false ->
     compatible_trees (tree acc) (Sample_tree (sample f)) = false ->
     is_Ok (run_heat_tree options (pre ++ f :: post)) = false) /\
  (forall options pre f post acc,
     read_and_accumulate pre prepare_results = Ok acc ->
     vector_empty (total_masses acc) = false ->
     length (total_masses acc)
     <> length (placement_mass_per_edges_with_multiplicities (sample f)) ->
     is_Ok (run_heat_tree options (pre ++ f :: post)) = false) /\
  (forall options processed e,
     run_heat_tree options processed = Throw e ->
     what e = "Input jplace files have differing reference trees."%string).
Proof.
  split; [|split].
  - intros options pre f post acc Hpre Hne Hc.
    by rewrite (run_heat_tree_incompatible_tree _ _ _ _ _ Hpre Hne Hc).
  - intros options pre f post acc Hpre Hne Hlen.
    by rewrite (run_heat_tree_differing_size _ _ _ _ _ Hpre Hne Hlen).
  - intros options processed e Hrun%run_heat_tree_Throw.
    by apply read_and_accumulate_Throw in Hrun as ->.
Qed.

(** C9, as the code has it: neither command checks the number of input
    files.  Without files no iteration runs and no exception is thrown:
    [run_heat_tree] goes on to the colour normalisation with the default
    tree and an empty mass vector, and [run_nhd] to the distances of no
    histogram sets. *)
Theorem no_files_no_exception :
  (forall options processed,
     jplace_input options = [] ->
     processed ≡ₚ jplace_input options ->
     run_heat_tree options processed
     = Ok (normalize_colors options
             {| tree := Tree_default; total_masses := [] |})) /\
  (forall options steps,
     nhd_jplace_input options = [] ->
     interleaving (length (nhd_jplace_input options)) steps = true ->
     run_nhd options steps = Ok (node_histogram_distance []) /\
     node_histogram_distance [] = Matrix_init 0 0 lit_0).
Proof.
  split.
  - intros options processed -> ->%Permutation_nil_r.
    unfold run_heat_tree, normalize_relative. simpl.
    by destruct (mass_norm_relative options).
  - intros options steps Hfiles. rewrite Hfiles. simpl.
    intros ->%interleaving_empty. unfold run_nhd, prepare_storage.
    by rewrite Hfiles.
Qed.

(** * Further properties of [run_heat_tree] *)

(** What an iteration that does not throw has done. *)
Lemma accumulate_Ok acc f acc' :
  accumulate acc f = Ok acc' ->
  tree acc' = (if tree_empty (tree acc) then Sample_tree (sample f)
               else tree acc) /\
  total_masses acc'
  = add_masses (total_masses acc)
               (placement_mass_per_edges_with_multiplicities (sample f)) /\
  (vector_empty (total_masses acc) = false ->
   length (total_masses acc)
   = length (placement_mass_per_edges_with_multiplicities (sample f))).
Proof.
  unfold accumulate, add_masses.
  destruct (tree_empty (tree acc)); simpl.
  - destruct (vector_empty (total_masses acc)); simpl.
    + by intros [= <-].
    + destruct (length (total_masses acc) =? _)%nat eqn:Hlen; simpl; [|done].
      intros [= <-]. by apply Nat.eqb_eq in Hlen.
  - destruct (compatible_trees _ _); simpl; [|done].
    destruct (vector_empty (total_masses acc)); simpl.
    + by intros [= <-].
    + destruct (length (total_masses acc) =? _)%nat eqn:Hlen; simpl; [|done].
      intros [= <-]. by apply Nat.eqb_eq in Hlen.
Qed.

(** What an iteration that throws has met. *)
Lemma accumulate_Throw_cause acc f e :
  accumulate acc f = Throw e ->
  (tree_empty (tree acc) = false /\
   compatible_trees (tree acc) (Sample_tree (sample f)) = false) \/
  (vector_empty (total_masses acc) = false /\
   length (total_masses acc)
   <> length (placement_mass_per_edges_with_multiplicities (sample f))).
Proof.
  unfold accumulate.
  destruct (tree_empty (tree acc)) eqn:Hempty; simpl.
  - destruct (vector_empty (total_masses acc)); simpl; [done|].
    destruct (length (total_masses acc) =? _)%nat eqn:Hlen; simpl; [done|].
    intros _. right. split; [done|]. by apply Nat.eqb_neq.
  - destruct (compatible_trees _ _); simpl; [|by left].
    destruct (vector_empty (total_masses acc)); simpl; [done|].
    destruct (length (total_masses acc) =? _)%nat eqn:Hlen; simpl; [done|].
    intros _. right. split; [done|]. by apply Nat.eqb_neq.
Qed.

Lemma read_and_accumulate_Throw_cause processed acc0 e :
  read_and_accumulate processed acc0 = Throw e ->
  exists pre f post acc,
    processed = pre ++ f :: post /\
    read_and_accumulate pre acc0 = Ok acc /\
    ((tree_empty (tree acc) = false /\
      compatible_trees (tree acc) (Sample_tree (sample f)) = false) \/
     (vector_empty (total_masses acc) = false /\
      length (total_masses acc)
      <> length (placement_mass_per_edges_with_multiplicities (sample f)))).
Proof.
  revert acc0. induction processed as [|f rest IH]; intros acc0; simpl; [done|].
  destruct (accumulate acc0 f) as [acc1|e'] eqn:Hstep; simpl.
  - intros (pre & g & post & acc & -> & Hpre & Hcause)%IH.
    exists (f :: pre), g, post, acc. simpl. by rewrite Hstep.
  - intros _. exists [], f, rest, acc0.
    split; [done|]. split; [done|]. by eapply accumulate_Throw_cause.
Qed.

(** A reference tree that is not empty stays, and every later sample that
    is accepted is compatible with it. *)
Lemma read_and_accumulate_reference_tree rest acc acc' :
  tree_empty (tree acc) = false ->
  read_and_accumulate rest acc = Ok acc' ->
  tree acc' = tree acc /\
  forall g, g ∈ rest ->
    compatible_trees (tree acc) (Sample_tree (sample g)) = true.
Proof.
  revert acc. induction rest as [|f rest IH]; intros acc Hne; simpl.
  { intros [= <-]. split; [done|]. by intros g ?%elem_of_nil. }
  destruct (accumulate acc f) as [acc1|e] eqn:Hstep; simpl; [|done].
  intros Hrest.
  pose proof (accumulate_Ok_compatible _ _ _ Hstep Hne) as Hcompat.
  apply accumulate_Ok in Hstep as (Htree & _). rewrite Hne in Htree.
  destruct (IH acc1) as [Hfinal Hall]; [by rewrite Htree|done|].
  rewrite Htree in Hfinal, Hall. split; [done|].
  intros g [->|Hg]%elem_of_cons; auto.
Qed.

(** X1: when the first file to pass the critical region has a tree that is
    not empty, a run that ends without an exception writes this tree, and
    the tree of every other file is compatible with it. *)
Theorem reference_tree_of_first_file options f rest out :
  tree_empty Tree_default = true ->
  tree_empty (Sample_tree (sample f)) = false ->
  run_heat_tree options (f :: rest) = Ok out ->
  out_tree out = Sample_tree (sample f) /\
  forall g, g ∈ rest ->
    compatible_trees (Sample_tree (sample f)) (Sample_tree (sample g)) = true.
Proof.
  intros Hdefault Hne. unfold run_heat_tree. simpl.
  destruct (accumulate prepare_results f) as [acc1|e] eqn:Hfirst; simpl;
    [|done].
  destruct (read_and_accumulate rest acc1) as [acc|e] eqn:Hrest; simpl;
    [|done].
  intros [= <-].
  apply accumulate_Ok in Hfirst as (Htree & _). simpl in Htree.
  rewrite Hdefault in Htree.
  destruct (read_and_accumulate_reference_tree rest acc1 acc)
    as [Hfinal Hall]; [by rewrite Htree|done|].
  rewrite Htree in Hfinal, Hall. split; [|done].
  rewrite <- Hfinal. unfold normalize_colors. by repeat case_match.
Qed.

(** X2: when the loop throws, it is at a file whose tree is incompatible
    with a non-empty reference tree, or whose mass vector differs in
    length from a non-empty accumulated vector; the files before it were
    accepted, and the exception is the one of the critical region. *)
Theorem accumulation_throws_at processed e :
  read_and_accumulate processed prepare_results = Throw e ->
  e = differing_reference_trees /\
  exists pre f post acc,
    processed = pre ++ f :: post /\
    read_and_accumulate pre prepare_results = Ok acc /\
    ((tree_empty (tree acc) = false /\
      compatible_trees (tree acc) (Sample_tree (sample f)) = false) \/
     (vector_empty (total_masses acc) = false /\
      length (total_masses acc)
      <> length (placement_mass_per_edges_with_multiplicities (sample f)))).
Proof.
  intros Hrun. split; [by eapply read_and_accumulate_Throw|].
  by apply read_and_accumulate_Throw_cause in Hrun.
Qed.

Lemma read_and_accumulate_lengths processed acc0 acc :
  read_and_accumulate processed acc0 = Ok acc ->
  (total_masses acc0 = [] \/
   length (total_masses acc0) = length (total_masses acc)) /\
  forall f, f ∈ processed ->
    placement_mass_per_edges_with_multiplicities (sample f) = [] \/
    length (placement_mass_per_edges_with_multiplicities (sample f))
    = length (total_masses acc).
Proof.
  revert acc0. induction processed as [|f rest IH]; intros acc0; simpl.
  { intros [= <-]. split; [by right|]. by intros g ?%elem_of_nil. }
  destruct (accumulate acc0 f) as [acc1|e] eqn:Hstep; simpl; [|done].
  intros (Hacc1 & Hrest)%IH.
  apply accumulate_Ok in Hstep as (_ & Htotal & Hlen).
  set (masses := placement_mass_per_edges_with_multiplicities (sample f)) in *.
  unfold add_masses in Htotal.
  destruct (total_masses acc0) as [|v total0] eqn:Htotal0; simpl in *.
  - rewrite Htotal in Hacc1. split; [by left|].
    intros g [->|Hg]%elem_of_cons; auto.
  - specialize (Hlen eq_refl).
    assert (Hzip : length (total_masses acc1) = S (length total0)).
    { rewrite Htotal.
      change (length (zip_with dadd (v :: total0) masses) = S (length total0)).
      rewrite length_zip_with, <- Hlen. simpl. lia. }
    destruct Hacc1 as [Hnil|Hfinal].
    { rewrite Hnil in Hzip. done. }
    split; [right; congruence|].
    intros g [->|Hg]%elem_of_cons; [|auto].
    right. fold masses. congruence.
Qed.

(** X3: in a run that ends without an exception, the mass vector of every
    file is empty or as long as the accumulated vector. *)
Theorem accepted_mass_vectors_have_one_length processed acc :
  read_and_accumulate processed prepare_results = Ok acc ->
  forall f, f ∈ processed ->
    placement_mass_per_edges_with_multiplicities (sample f) = [] \/
    length (placement_mass_per_edges_with_multiplicities (sample f))
    = length (total_masses acc).
Proof. intros Hrun. by apply read_and_accumulate_lengths in Hrun as [_ ?]. Qed.

Lemma read_and_accumulate_entry rest acc1 acc i v :
  vector_empty (total_masses acc1) = false ->
  read_and_accumulate rest acc1 = Ok acc ->
  total_masses acc1 !! i = Some v ->
  exists xs,
    Forall2 (fun g x =>
               placement_mass_per_edges_with_multiplicities (sample g) !! i
               = Some x) rest xs /\
    total_masses acc !! i = Some (foldl dadd v xs).
Proof.
  revert acc1 v. induction rest as [|g rest IH]; intros acc1 v Hne; simpl.
  { intros [= <-] Hv. exists []. by split; [constructor|]. }
  destruct (accumulate acc1 g) as [acc2|e] eqn:Hstep; simpl; [|done].
  intros Hrest Hv.
  apply accumulate_Ok in Hstep as (_ & Htotal & Hlen).
  specialize (Hlen Hne). unfold add_masses in Htotal. rewrite Hne in Htotal.
  set (masses := placement_mass_per_edges_with_multiplicities (sample g)) in *.
  destruct (lookup_lt_is_Some_2 masses i) as [x Hx].
  { rewrite <- Hlen. by eapply lookup_lt_Some. }
  assert (Hsum : total_masses acc2 !! i = Some (dadd v x)).
  { by rewrite Htotal, lookup_zip_with, Hv, Hx. }
  destruct (IH acc2 (dadd v x)) as (xs & Hxs & Hfinal); [|done|done|].
  { destruct (total_masses acc2); [done|done]. }
  exists (x :: xs). split; [by constructor|done].
Qed.

(** X4: in a run that ends without an exception and begins with a file
    whose mass vector is not empty, entry [i] of the accumulated vector is
    entry [i] of the first file plus the entries [i] of the other files,
    added from left to right in the order of the critical region. *)
Theorem accumulated_entry_is_sum f rest acc i v :
  vector_empty (placement_mass_per_edges_with_multiplicities (sample f))
  = false ->
  read_and_accumulate (f :: rest) prepare_results = Ok acc ->
  placement_mass_per_edges_with_multiplicities (sample f) !! i = Some v ->
  exists xs,
    Forall2 (fun g x =>
               placement_mass_per_edges_with_multiplicities (sample g) !! i
               = Some x) rest xs /\
    total_masses acc !! i = Some (foldl dadd v xs).
Proof.
  intros Hne. simpl.
  destruct (accumulate prepare_results f) as [acc1|e] eqn:Hfirst; simpl;
    [|done].
  intros Hrest Hv.
  apply accumulate_Ok in Hfirst as (_ & Htotal & _). simpl in Htotal.
  apply (read_and_accumulate_entry rest acc1); by rewrite ?Htotal.
Qed.

Lemma max_value_apply_options (o : ColorNormOptions D) (norm : ColorNorm D) :
  max_value (apply_options o norm)
  = match max_value_option o with Some m => m | None => max_value norm end.
Proof.
  unfold apply_options.
  by destruct (min_value_option o), (max_value_option o), (mask_value_option o).
Qed.

Lemma max_value_default_min_value log (norm : ColorNorm D) :
  max_value (default_min_value log norm) = max_value norm.
Proof. unfold default_min_value. by repeat case_match. Qed.

(** X6: without log scaling the masses are handed on as they are and
    nothing is logged, whatever the other options say; the domain begins
    at the user's minimum, or at 0, and ends at the user's maximum, or at
    the autoscaled one. *)
Theorem normalize_colors_linear options acc :
  let auto := autoscale (get_sequential_norm (color_norm options))
                        (total_masses acc) in
  let out := normalize_colors options acc in
  log_scaling (color_norm options) = false ->
  out_masses out = total_masses acc /\
  out_warnings out = [] /\
  min_value (out_norm out)
  = match min_value_option (color_norm options) with
    | Some m => m | None => lit_0 end /\
  max_value (out_norm out)
  = match max_value_option (color_norm options) with
    | Some m => m | None => max_value auto end.
Proof.
  intros auto out Hlog. unfold out.
  rewrite out_norm_normalize_colors, min_value_apply_options,
    max_value_apply_options, max_value_default_min_value.
  unfold normalize_colors. rewrite Hlog. simpl. done.
Qed.

(** X7: under log scaling with an autoscaled minimum that is not <= 0, the
    masses are handed on as they are and nothing is logged, also when the
    user gave a minimum or clip-under; the domain begins at the user's
    minimum, or at the autoscaled one. *)
Theorem normalize_colors_log_positive options acc :
  let auto := autoscale (get_sequential_norm (color_norm options))
                        (total_masses acc) in
  let out := normalize_colors options acc in
  log_scaling (color_norm options) = true ->
  dle (min_value auto) lit_0 = false ->
  out_masses out = total_masses acc /\
  out_warnings out = [] /\
  min_value (out_norm out)
  = match min_value_option (color_norm options) with
    | Some m => m | None => min_value auto end /\
  max_value (out_norm out)
  = match max_value_option (color_norm options) with
    | Some m => m | None => max_value auto end.
Proof.
  intros auto out Hlog Hmin. unfold out.
  rewrite out_norm_normalize_colors, min_value_apply_options,
    max_value_apply_options, max_value_default_min_value.
  unfold normalize_colors. fold auto. rewrite Hlog, Hmin. simpl.
  unfold default_min_value. by rewrite Hmin.
Qed.

Lemma normalize_colors_shape options acc :
  out_tree (normalize_colors options acc) = tree acc /\
  length (out_masses (normalize_colors options acc))
  = length (total_masses acc).
Proof.
  unfold normalize_colors, rewrite_non_positive.
  repeat case_match; simpl; by rewrite ?length_fmap.
Qed.

(** X8: a run that ends without an exception hands on the tree of the
    loop, and as many masses as the loop has accumulated: neither the
    relative masses nor the colour normalisation add or drop an entry. *)
Theorem run_heat_tree_shape options processed out :
  run_heat_tree options processed = Ok out ->
  exists acc,
    read_and_accumulate processed prepare_results = Ok acc /\
    out_tree out = tree acc /\
    length (out_masses out) = length (total_masses acc).
Proof.
  unfold run_heat_tree.
  destruct (read_and_accumulate processed prepare_results) as [acc|e];
    simpl; [|done].
  intros [= <-]. exists acc. split; [done|].
  destruct (normalize_colors_shape options
              {| tree := tree acc;
                 total_masses :=
                   normalize_relative (mass_norm_relative options)
                                      (total_masses acc) |}) as [-> ->].
  simpl. split; [done|].
  unfold normalize_relative. destruct (mass_norm_relative options); [|done].
  apply length_fmap.
Qed.

(** * Further properties of [run_nhd] *)

(** [n] different indices below [n] are all the indices below [n]. *)
Lemma all_indices (l : list nat) n i :
  NoDup l -> (forall x, x ∈ l -> x < n) -> length l = n -> i < n -> i ∈ l.
Proof.
  intros Hnodup Hbelow Hlen Hi.
  assert (Hsub : l ⊆+ seq 0 n).
  { apply NoDup_submseteq; [done|]. intros x Hx%Hbelow.
    apply elem_of_seq. lia. }
  apply submseteq_length_Permutation in Hsub; [|rewrite length_seq; lia].
  rewrite Hsub. apply elem_of_seq. lia.
Qed.

(** With the matrices built, the rest of an interleaving fills the slot
    of every file with the histograms taken against these matrices. *)
Lemma load_files_filled options m_dist m_side steps entered filled st st' :
  let files := nhd_jplace_input options in
  interleaving_from (length files) entered filled steps = true ->
  Matrix_empty m_dist = false ->
  node_distances st = m_dist -> node_sides st = m_side ->
  length (hist_vecs st) = length files ->
  (forall fi, fi ∈ entered -> fi < length files) ->
  filled ⊆ entered -> NoDup filled ->
  (forall fi, fi ∈ filled ->
     exists f h, files !! fi = Some f /\
       node_distance_histogram_set (sample f) m_dist m_side (bins options)
       = Ok h /\
       hist_vecs st !! fi = Some h) ->
  load_files options steps st = Ok st' ->
  length (hist_vecs st') = length files /\
  forall fi f, files !! fi = Some f ->
    exists h,
      node_distance_histogram_set (sample f) m_dist m_side (bins options)
      = Ok h /\
      hist_vecs st' !! fi = Some h.
Proof.
  intros files. revert entered filled st.
  induction steps as [|[fi|fi] rest IH];
    intros entered filled st Hsteps Hbuilt Hdist Hside Hlen Hentered Hsub
           Hnodup Hfilled; simpl in *.
  - intros [= <-]. split; [done|]. intros fi f Hf.
    apply Nat.eqb_eq in Hsteps.
    assert (Hin : fi ∈ filled).
    { apply (all_indices filled (length files)); auto.
      by eapply lookup_lt_Some. }
    destruct (Hfilled fi Hin) as (f' & h & Hf' & Hh & Hslot).
    exists h. by simplify_eq.
  - apply andb_true_iff in Hsteps as [Hfi Hrest].
    apply andb_true_iff in Hfi as [Hfi%Nat.ltb_lt _].
    fold files. destruct (files !! fi) as [f|]; simpl.
    + rewrite Hdist, Hbuilt. simpl. apply (IH (fi :: entered) filled); auto.
      * intros x [->|Hx]%elem_of_cons; auto.
      * intros x Hx. right. by apply Hsub.
    + apply (IH (fi :: entered) filled); auto.
      * intros x [->|Hx]%elem_of_cons; auto.
      * intros x Hx. right. by apply Hsub.
  - apply andb_true_iff in Hsteps as [Hfi Hrest].
    apply andb_true_iff in Hfi as [Hfi%bool_decide_eq_true Hnew].
    apply negb_true_iff, bool_decide_eq_false in Hnew.
    fold files.
    destruct (lookup_lt_is_Some_2 files fi) as [f Hf]; [by apply Hentered|].
    rewrite Hf, Hdist, Hside.
    destruct (node_distance_histogram_set _ _ _ _) as [h|e] eqn:Hh;
      simpl; [|done].
    apply (IH entered (fi :: filled)); simpl; auto.
    + by rewrite length_insert.
    + intros x [->|Hx]%elem_of_cons; auto.
    + by apply NoDup_cons.
    + intros x [->|Hx]%elem_of_cons.
      * exists f, h. split; [done|]. split; [done|].
        apply list_lookup_insert_eq. rewrite Hlen. by apply Hentered.
      * destruct (Hfilled x Hx) as (f' & h' & ? & ? & ?).
        exists f', h'. split; [done|]. split; [done|].
        rewrite list_lookup_insert_ne; [done|]. by intros ->.
Qed.

(** X9: whatever the interleaving, when the loop ends without an exception
    the slot of every file holds the histograms of its sample, taken
    against the matrices of the file that entered the critical region
    first, also where the tree of the sample is another one. *)
Theorem histograms_against_first_matrices options steps fi0 f0 st :
  let files := nhd_jplace_input options in
  interleaving (length files) steps = true ->
  head steps = Some (CalculateMatrices fi0) ->
  files !! fi0 = Some f0 ->
  Matrix_empty (node_branch_length_distance_matrix (Sample_tree (sample f0)))
  = false ->
  load_files options steps (prepare_storage options) = Ok st ->
  length (hist_vecs st) = length files /\
  forall fi f, files !! fi = Some f ->
    exists h,
      node_distance_histogram_set (sample f)
        (node_branch_length_distance_matrix (Sample_tree (sample f0)))
        (node_root_direction_matrix (Sample_tree (sample f0)))
        (bins options) = Ok h /\
      hist_vecs st !! fi = Some h.
Proof.
  intros files Hsteps Hhead Hf0 Hbuilt.
  apply head_Some in Hhead as [rest ->].
  unfold interleaving in Hsteps. simpl in Hsteps.
  apply andb_true_iff in Hsteps as [_ Hrest].
  simpl. fold files. rewrite Hf0. simpl.
  apply (load_files_filled options _ _ rest [fi0] []); simpl; auto.
  - by rewrite length_replicate.
  - intros x ->%list_elem_of_singleton. by eapply lookup_lt_Some.
  - intros x ?%elem_of_nil. done.
  - constructor.
  - intros x ?%elem_of_nil. done.
Qed.

Lemma load_files_Throw_built options m_dist m_side steps st e :
  Matrix_empty m_dist = false ->
  node_distances st = m_dist -> node_sides st = m_side ->
  load_files options steps st = Throw e ->
  exists f, f ∈ nhd_jplace_input options /\
    node_distance_histogram_set (sample f) m_dist m_side (bins options)
    = Throw e.
Proof.
  intros Hbuilt. revert st.
  induction steps as [|s rest IH]; intros st Hdist Hside; simpl; [done|].
  destruct (loop_step options st s) as [st1|e'] eqn:Hstep; simpl.
  - destruct (loop_step_built options st s st1) as (Hd & Hs & _);
      [by rewrite Hdist|done|].
    apply IH; congruence.
  - intros [= <-].
    apply loop_step_Throw in Hstep as (fi & f & _ & Hf & Hh).
    exists f. split; [by eapply list_elem_of_lookup_2|]. congruence.
Qed.

Lemma interleaving_from_sequential k m (finished : list nat) :
  length finished = k ->
  (forall x, x ∈ finished -> x < k) ->
  interleaving_from (k + m) finished finished
    (fi ← seq k m; [CalculateMatrices fi; FillHistograms fi]) = true.
Proof.
  revert k finished. induction m as [|m IH]; intros k finished Hlen Hbelow.
  { simpl. apply Nat.eqb_eq. lia. }
  assert (Hnew : k ∉ finished) by (intros ?%Hbelow; lia).
  simpl.
  rewrite (bool_decide_eq_false_2 (k ∈ finished)) by done.
  rewrite (bool_decide_eq_true_2 (k ∈ k :: finished)) by left.
  replace (k <? k + S m)%nat with true by (symmetry; apply Nat.ltb_lt; lia).
  simpl. replace (k + S m) with (S k + m) by lia.
  apply IH; simpl; [by rewrite Hlen|].
  intros x [->|Hx%Hbelow]%elem_of_cons; lia.
Qed.

(** The run of one thread is an interleaving. *)
Lemma interleaving_sequential set_size :
  interleaving set_size (sequential set_size) = true.
Proof.
  apply (interleaving_from_sequential 0 set_size []); [done|].
  by intros x ?%elem_of_nil.
Qed.

(** How the loop ends when all trees have the same matrices. *)
Lemma load_files_outcome options m_dist m_side steps :
  let files := nhd_jplace_input options in
  Forall (fun f =>
            node_branch_length_distance_matrix (Sample_tree (sample f))
            = m_dist /\
            node_root_direction_matrix (Sample_tree (sample f)) = m_side)
         files ->
  Matrix_empty m_dist = false ->
  interleaving (length files) steps = true ->
  match load_files options steps (prepare_storage options) with
  | Ok st =>
      length (hist_vecs st) = length files /\
      forall fi f, files !! fi = Some f ->
        exists h,
          node_distance_histogram_set (sample f) m_dist m_side (bins options)
          = Ok h /\
          hist_vecs st !! fi = Some h
  | Throw e =>
      exists f, f ∈ files /\
        node_distance_histogram_set (sample f) m_dist m_side (bins options)
        = Throw e
  end.
Proof.
  intros files Hsame Hbuilt Hsteps.
  destruct (decide (length files = 0)) as [Hnone|Hsome].
  { rewrite Hnone in Hsteps. apply interleaving_empty in Hsteps as ->.
    simpl. fold files. rewrite Hnone. split; [done|].
    intros fi f Hf%lookup_lt_Some. lia. }
  destruct (interleaving_head _ _ Hsteps) as (fi0 & rest & -> & Hfi0); [lia|].
  destruct (lookup_lt_is_Some_2 files fi0 Hfi0) as [f0 Hf0].
  destruct (proj1 (Forall_forall _ _) Hsame f0) as [Hd Hs].
  { by eapply list_elem_of_lookup_2. }
  unfold interleaving in Hsteps. simpl in Hsteps.
  apply andb_true_iff in Hsteps as [_ Hrest].
  simpl. fold files. rewrite Hf0. simpl. rewrite Hd, Hs.
  match goal with |- context [load_files options rest ?st1] =>
    destruct (load_files options rest st1) as [st|e] eqn:Hload end.
  - apply (load_files_filled options m_dist m_side rest [fi0] [] _ st)
      in Hload; simpl; auto.
    + by rewrite length_replicate.
    + by intros x ->%list_elem_of_singleton.
    + by intros x ?%elem_of_nil.
    + constructor.
    + by intros x ?%elem_of_nil.
  - by apply (load_files_Throw_built options m_dist m_side) in Hload.
Qed.

(** X10: when the trees of all files have the same, non-empty matrices,
    every interleaving of the loop ends as the run of one thread does:
    with the same distance matrix, or both with an exception. *)
Theorem run_nhd_as_sequential options m_dist m_side steps :
  let files := nhd_jplace_input options in
  Forall (fun f =>
            node_branch_length_distance_matrix (Sample_tree (sample f))
            = m_dist /\
            node_root_direction_matrix (Sample_tree (sample f)) = m_side)
         files ->
  Matrix_empty m_dist = false ->
  interleaving (length files) steps = true ->
  interleaving (length files) (sequential (length files)) = true /\
  match run_nhd options steps,
        run_nhd options (sequential (length files)) with
  | Ok result, Ok result' => result = result'
  | Throw _, Throw _ => True
  | _, _ => False
  end.
Proof.
  intros files Hsame Hbuilt Hsteps.
  split; [apply interleaving_sequential|].
  pose proof (load_files_outcome options m_dist m_side steps
                Hsame Hbuilt Hsteps) as Hrun.
  pose proof (load_files_outcome options m_dist m_side
                (sequential (length files)) Hsame Hbuilt
                (interleaving_sequential _)) as Hseq.
  unfold run_nhd. fold files in Hrun, Hseq.
  destruct (load_files options steps _) as [st|e];
    destruct (load_files options (sequential _) _) as [st'|e']; simpl.
  - destruct Hrun as [Hlen Hslots], Hseq as [Hlen' Hslots'].
    f_equal. apply list_eq. intros fi.
    destruct (files !! fi) as [f|] eqn:Hf.
    + destruct (Hslots fi f Hf) as (h & Hh & ->).
      destruct (Hslots' fi f Hf) as (h' & Hh' & ->). congruence.
    + apply lookup_ge_None in Hf.
      rewrite !lookup_ge_None_2; [done|lia|lia].
  - destruct Hrun as [_ Hslots], Hseq as (f & Hf & Hthrow).
    apply list_elem_of_lookup_1 in Hf as [fi Hf].
    destruct (Hslots fi f Hf) as (h & Hh & _). congruence.
  - destruct Hseq as [_ Hslots], Hrun as (f & Hf & Hthrow).
    apply list_elem_of_lookup_1 in Hf as [fi Hf].
    destruct (Hslots fi f Hf) as (h & Hh & _). congruence.
  - done.
Qed.

(** The rewriting, where it takes place. *)
Lemma normalize_colors_rewrite options acc :
  let auto := autoscale (get_sequential_norm (color_norm options))
                        (total_masses acc) in
  let out := normalize_colors options acc in
  log_scaling (color_norm options) = true ->
  dle (min_value auto) lit_0 = true ->
  is_Some (min_value_option (color_norm options)) \/
  clip_under_option (color_map options) = true ->
  out_warnings out = [] /\
  out_masses out = rewrite_non_positive (out_norm out) (total_masses acc).
Proof.
  intros auto out Hlog Hmin Hexplicit. unfold out, normalize_colors.
  fold auto. rewrite Hlog, Hmin. simpl.
  destruct Hexplicit as [[m Hm]|Hclip].
  - by rewrite Hm.
  - by rewrite Hclip, andb_false_r.
Qed.

(** X11: where the masses are rewritten and half of the final minimum is
    not <= 0, no mass that is handed on is <= 0. *)
Theorem rewritten_masses_above_zero options acc :
  let auto := autoscale (get_sequential_norm (color_norm options))
                        (total_masses acc) in
  let out := normalize_colors options acc in
  log_scaling (color_norm options) = true ->
  dle (min_value auto) lit_0 = true ->
  is_Some (min_value_option (color_norm options)) \/
  clip_under_option (color_map options) = true ->
  dle (ddiv (min_value (out_norm out)) lit_2) lit_0 = false ->
  Forall (fun v => dle v lit_0 = false) (out_masses out).
Proof.
  intros auto out Hlog Hmin Hexplicit Hhalf.
  destruct (normalize_colors_rewrite options acc Hlog Hmin Hexplicit)
    as [_ Hmasses].
  fold out in Hmasses. rewrite Hmasses. unfold rewrite_non_positive.
  apply Forall_fmap, Forall_forall. intros v _. simpl.
  by destruct (dle v lit_0) eqn:Hv.
Qed.

(** * The accumulated masses and the order of the files *)










End Commands.

Arguments file_path {Sample} _.
Arguments sample {Sample} _.
Arguments jplace_input {D Sample} _.
Arguments mass_norm_relative {D Sample} _.
Arguments color_norm {D Sample} _.
Arguments color_map {D Sample} _.
Arguments tree {D Tree} _.
Arguments total_masses {D Tree} _.
Arguments out_tree {D Tree} _.
Arguments out_masses {D Tree} _.
Arguments out_norm {D Tree} _.
Arguments out_warnings {D Tree} _.
Arguments nhd_jplace_input {Sample} _.
Arguments bins {Sample} _.
Arguments node_distances {D NodeDistanceHistogramSet} _.
Arguments node_sides {D NodeDistanceHistogramSet} _.
Arguments hist_vecs {D NodeDistanceHistogramSet} _.
Arguments builders {D NodeDistanceHistogramSet} _.

(** * Relative masses *)






Section RelativeMasses.

Variables Tree Sample : Type.
Variable Tree_default : Tree.
Variable tree_empty : Tree -> bool.
Variable Sample_tree : Sample -> Tree.
Variable compatible_trees : Tree -> Tree -> bool.
Variable placement_mass_per_edges_with_multiplicities : Sample -> list float.
Variable get_sequential_norm : ColorNormOptions float -> ColorNorm float.
Variable autoscale : ColorNorm float -> list float -> ColorNorm float.


End RelativeMasses.


(** * A total mass of zero *)

(** A division by zero has no finite result. *)
Lemma div_zero_not_finite (x z : float) :
  PrimFloat.is_zero z = true -> PrimFloat.is_finite (x / z)%float = false.
Proof.
  unfold PrimFloat.is_zero, PrimFloat.is_finite, PrimFloat.is_nan,
    PrimFloat.is_infinity.
  rewrite !FloatAxioms.eqb_spec, abs_spec, div_spec.
  change (Prim2SF zero) with (S754_zero false).
  change (Prim2SF infinity) with (S754_infinity false).
  destruct (Prim2SF z) as [sz|sz| |sz mz ez]; simpl;
    [intros _|by destruct sz|done|by destruct sz].
  destruct (Prim2SF x) as [sx|sx| |sx mx ex]; try done; by destruct sx, sz.
Qed.

Section RelativeMassesBinary64.

Variables Tree Sample : Type.
Variable Tree_default : Tree.
Variable tree_empty : Tree -> bool.
Variable Sample_tree : Sample -> Tree.
Variable compatible_trees : Tree -> Tree -> bool.
Variable placement_mass_per_edges_with_multiplicities : Sample -> list float.
Variable get_sequential_norm : ColorNormOptions float -> ColorNorm float.
Variable autoscale : ColorNorm float -> list float -> ColorNorm float.

(** C10: with relative masses every entry is divided by the sum, whatever
    the sum is; when the sum is zero, no entry of the result is a finite
    number, and the run goes on without an exception. *)
Theorem normalize_relative_zero_sum (total : list float) :
  let sum := accumulate_sum total in
  normalize_relative true total = map (fun v => v / sum)%float total /\
  (PrimFloat.is_zero sum = true ->
   Forall (fun v => PrimFloat.is_finite v = false)
          (normalize_relative true total)) /\
  (forall options processed acc,
     read_and_accumulate Tree Sample tree_empty Sample_tree compatible_trees
       placement_mass_per_edges_with_multiplicities processed
       (prepare_results Tree Tree_default) = Ok acc ->
     total_masses acc = total ->
     mass_norm_relative options = true ->
     PrimFloat.is_zero sum = true ->
     run_heat_tree Tree Sample Tree_default tree_empty Sample_tree
       compatible_trees placement_mass_per_edges_with_multiplicities
       get_sequential_norm autoscale options processed
     = Ok (normalize_colors Tree Sample get_sequential_norm autoscale options
             {| tree := tree acc;
                total_masses := map (fun v => v / sum)%float total |})).
Proof.
  intros sum. split; [done|]. split.
  - intros Hzero. unfold normalize_relative. fold sum.
    apply Forall_fmap, Forall_forall. intros v _. simpl.
    by apply div_zero_not_finite.
  - intros options processed acc Hloop <- Hrelative _.
    rewrite (run_heat_tree_Ok _ _ _ _ _ _ _ _ _ _ _ _ Hloop).
    by rewrite Hrelative.
Qed.

End RelativeMassesBinary64.

(** * Colour normalisation in binary64 *)

Section ColoursBinary64.

Variables Tree Sample : Type.
Variable get_sequential_norm : ColorNormOptions float -> ColorNorm float.
Variable autoscale : ColorNorm float -> list float -> ColorNorm float.

(** X12: where all masses are 0, so that the autoscaled maximum is 0, log
    scaling with clip-under and no minimum of the user leaves the minimum
    at 0, and rewrites the masses <= 0 to 0: the masses that are handed on
    have no logarithm, and no warning says so. *)
Theorem log_scaling_of_zero_masses
    (options : HeatTreeOptions Sample) (acc : Accumulated Tree) :
  let auto := autoscale (get_sequential_norm (color_norm options))
                        (total_masses acc) in
  let out := normalize_colors Tree Sample get_sequential_norm autoscale
               options acc in
  log_scaling (color_norm options) = true ->
  min_value_option (color_norm options) = None ->
  clip_under_option (color_map options) = true ->
  PrimFloat.leb (min_value auto) 0 = true ->
  max_value auto = 0%float ->
  min_value (out_norm out) = 0%float /\
  out_warnings out = [] /\
  forall i v, total_masses acc !! i = Some v ->
    PrimFloat.leb v 0 = true -> out_masses out !! i = Some 0%float.
Proof.
  intros auto out Hlog Hno_min Hclip Hmin Hmax.
  destruct (normalize_colors_rewrite (H:=binary64) Tree Sample
              get_sequential_norm autoscale options acc Hlog Hmin)
    as [Hwarn Hmasses]; [by right|].
  fold out in Hwarn, Hmasses.
  assert (Hfinal : min_value (out_norm out) = 0%float).
  { unfold out.
    rewrite out_norm_normalize_colors, min_value_apply_options, Hno_min, Hlog.
    fold auto. unfold default_min_value. simpl. rewrite Hmin, Hmax.
    reflexivity. }
  split; [done|]. split; [done|].
  intros i v Hv Hle.
  rewrite Hmasses, lookup_rewrite_non_positive, Hv, Hfinal. simpl.
  by rewrite Hle.
Qed.

End ColoursBinary64.

(** * The commands on small inputs *)

(** An instance of the genesis interface to run the commands on.  Trees
    are parent vectors: [None] is the tree without nodes, and in
    [Some parents] node [k + 1] hangs below node [parents !! k]; two trees
    are compatible when they are equal.  A sample is its tree with its
    masses per edge. *)
Definition ParentTree : Type := option (list nat).

Definition ParentTree_empty (t : ParentTree) : bool :=
  match t with None => true | Some _ => false end.

Definition ParentTree_node_count (t : ParentTree) : nat :=
  match t with None => 0 | Some parents => S (length parents) end.

Definition ParentTree_compatible (lhs rhs : ParentTree) : bool :=
  bool_decide (lhs = rhs).

Record PlacedSample (D : Type) : Type := {
  placed_tree : ParentTree;
  placed_masses : list D;
}.
Arguments placed_tree {D} _.
Arguments placed_masses {D} _.

(** A fresh norm with domain [0, 1], and an autoscale that takes the
    least and the greatest of the values. *)
Definition example_norm `{Double D} (o : ColorNormOptions D) : ColorNorm D :=
  {| min_value := lit_0; max_value := lit_1; mask_value := lit_0 |}.

Definition example_autoscale `{Double D} (norm : ColorNorm D) (values : list D)
  : ColorNorm D :=
  match values with
  | [] => norm
  | v :: vs =>
      {| min_value := foldl (fun m x => if dgt m x then x else m) v vs;
         max_value := foldl (fun m x => if dgt x m then x else m) v vs;
         mask_value := mask_value norm |}
  end.

(** Matrices over the nodes of a tree, and histogram sets with one
    histogram per node, filled with the number of children of the node; as
    in genesis, the histograms of a sample cannot be taken with matrices
    of another size than its tree. *)
Definition ParentTree_children (t : ParentTree) (node : nat) : nat :=
  match t with
  | None => 0
  | Some parents => length (filter (fun p => p = node) parents)
  end.

Definition example_distance_matrix `{Double D} (t : ParentTree) : Matrix D :=
  Matrix_init (ParentTree_node_count t) (ParentTree_node_count t) lit_0.

Definition example_side_matrix (t : ParentTree) : Matrix Z :=
  Matrix_init (ParentTree_node_count t) (ParentTree_node_count t) 0%Z.

Definition example_histogram_set {D} (s : PlacedSample D)
    (node_distances : Matrix D) (node_sides : Matrix Z) (bins : nat)
  : Result (list (list nat)) :=
  let n := ParentTree_node_count (placed_tree s) in
  if (rows node_distances =? n)%nat && (rows node_sides =? n)%nat then
    Ok ((fun node => replicate bins (ParentTree_children (placed_tree s) node))
          <$> seq 0 n)
  else
    Throw (runtime_error "Node distance matrix has an invalid size.").

Definition example_histogram_distance `{Double D} (lhs rhs : list (list nat))
  : D :=
  if bool_decide (lhs = rhs) then lit_0 else lit_1.

Definition heat_tree_example `{Double D}
  : HeatTreeOptions (PlacedSample D) -> list (JplaceFile (PlacedSample D)) ->
    Result (HeatTreeOutput ParentTree) :=
  run_heat_tree ParentTree (PlacedSample D) None ParentTree_empty placed_tree
    ParentTree_compatible placed_masses example_norm example_autoscale.

Definition nhd_example `{Double D}
  : NhdOptions (PlacedSample D) -> list LoopStep -> Result (Matrix D) :=
  run_nhd ParentTree (PlacedSample D) placed_tree (list (list nat)) []
    example_distance_matrix example_side_matrix example_histogram_set
    example_histogram_distance.

(** Two trees over three nodes: a root with two children, and a chain. *)
Definition star : ParentTree := Some [0; 0].
Definition chain : ParentTree := Some [0; 1].

Definition file_a : JplaceFile (PlacedSample float) :=
  {| file_path := "a.jplace";
     sample := {| placed_tree := star; placed_masses := [1; 2]%float |} |}.
Definition file_b : JplaceFile (PlacedSample float) :=
  {| file_path := "b.jplace";
     sample := {| placed_tree := chain; placed_masses := [3; 4]%float |} |}.
Definition file_c : JplaceFile (PlacedSample float) :=
  {| file_path := "c.jplace";
     sample := {| placed_tree := star; placed_masses := [0; 0]%float |} |}.

(** A tree of one edge, with its mass. *)
Definition one_edge (mass : float) : JplaceFile (PlacedSample float) :=
  {| file_path := "one_edge.jplace";
     sample := {| placed_tree := Some [0]; placed_masses := [mass] |} |}.




Definition no_overrides (log : bool) : ColorNormOptions float :=
  {| log_scaling := log; min_value_option := None;
     max_value_option := None; mask_value_option := None |}.

Definition heat_tree_options (files : list (JplaceFile (PlacedSample float)))
    (relative : bool) (norm : ColorNormOptions float) (clip_under : bool)
  : HeatTreeOptions (PlacedSample float) :=
  {| jplace_input := files; mass_norm_relative := relative;
     color_norm := norm;
     color_map := {| clip_under_option := clip_under |} |}.

Definition nhd_options (files : list (JplaceFile (PlacedSample float)))
  : NhdOptions (PlacedSample float) :=
  {| nhd_jplace_input := files; bins := 4 |}.

(** The claim C1 fails for [run_nhd]: the trees of [file_a] and [file_b]
    are not compatible, and the run over the two files ends without an
    exception, with a distance matrix. *)
Lemma nhd_does_not_validate_trees :
  ParentTree_compatible (placed_tree (sample file_a))
                        (placed_tree (sample file_b)) = false /\
  interleaving 2 (sequential 2) = true /\
  nhd_example (nhd_options [file_a; file_b]) (sequential 2)
  = Ok {| rows := 2; cols := 2; data := [0; 1; 1; 0]%float |}.
Proof. split; [|split]; reflexivity. Qed.

(** The claim C4 fails in its last part: the run over [file_a] and
    [file_b], whose trees differ, ends with an exception whose message
    names neither file. *)
Lemma differing_trees_message_names_no_file :
  exists e,
    heat_tree_example
      (heat_tree_options [file_a; file_b] false (no_overrides false) false)
      [file_a; file_b] = Throw e /\
    contains (what e) (file_path file_a) = false /\
    contains (what e) (file_path file_b) = false.
Proof. eexists. split; [reflexivity|]. split; reflexivity. Qed.

(** The claim C9 fails: without input files both commands end without an
    exception. *)
Lemma no_files_is_not_an_error :
  is_Ok (heat_tree_example
           (heat_tree_options [] false (no_overrides false) false) [])
  = true /\
  is_Ok (nhd_example (nhd_options []) []) = true.
Proof. split; reflexivity. Qed.



(** ** The theorems at these inputs *)

(** The doubles next to 0.4, 0.01 and 0.005. *)
Definition double_0_4 : float := 0x1.999999999999ap-2.
Definition double_0_01 : float := 0x1.47ae147ae147bp-7.
Definition double_0_005 : float := 0x1.47ae147ae147bp-8.

(** [run_heat_tree] after [file_a] rejects [file_b]. *)
Lemma trees_validated_in_heat_tree_only_witness :
  heat_tree_example
    (heat_tree_options [file_a; file_b] false (no_overrides false) false)
    ([file_a] ++ file_b :: [])
  = Throw differing_reference_trees.
Proof.
  exact (proj1
    (trees_validated_in_heat_tree_only
       ParentTree (PlacedSample float) None ParentTree_empty placed_tree
       ParentTree_compatible placed_masses example_norm example_autoscale
       (list (list nat)) example_distance_matrix example_side_matrix
       example_histogram_set)
    (heat_tree_options [file_a; file_b] false (no_overrides false) false)
    [file_a] file_b []
    {| tree := star; total_masses := [1; 2]%float |}
    eq_refl eq_refl eq_refl).
Defined.

(** The default minimum for masses 0 and 2, and for masses 0 and 0.4. *)
Lemma default_min_value_log_scaling_witness :
  min_value (out_norm
    (normalize_colors ParentTree (PlacedSample float)
       example_norm example_autoscale
       (heat_tree_options [] false (no_overrides true) false)
       {| tree := star; total_masses := [0; 2]%float |})) = 1%float /\
  min_value (out_norm
    (normalize_colors ParentTree (PlacedSample float)
       example_norm example_autoscale
       (heat_tree_options [] false (no_overrides true) false)
       {| tree := star; total_masses := [0%float; double_0_4] |}))
  = (double_0_4 / 100000)%float.
Proof.
  split.
  - exact (proj2 (proj2 (proj2
      (default_min_value_log_scaling ParentTree (PlacedSample float)
         example_norm example_autoscale
         (heat_tree_options [] false (no_overrides true) false)
         {| tree := star; total_masses := [0; 2]%float |}
         eq_refl eq_refl))) eq_refl).
  - exact (proj2 (proj2 (proj2
      (default_min_value_log_scaling ParentTree (PlacedSample float)
         example_norm example_autoscale
         (heat_tree_options [] false (no_overrides true) false)
         {| tree := star; total_masses := [0%float; double_0_4] |}
         eq_refl eq_refl))) eq_refl).
Defined.

(** Masses 0, 1 and 3 under log scaling: with no override the run warns
    and keeps the masses; with a minimum of 0.01 it does not warn, and the
    mass 0 becomes 0.005. *)
Lemma normalize_colors_non_positive_witness :
  (let out := normalize_colors ParentTree (PlacedSample float)
                example_norm example_autoscale
                (heat_tree_options [] false (no_overrides true) false)
                {| tree := star; total_masses := [0; 1; 3]%float |} in
   out_warnings out = [warn_mass_0_log_scaling 1%float] /\
   out_masses out = [0; 1; 3]%float) /\
  (let out := normalize_colors ParentTree (PlacedSample float)
                example_norm example_autoscale
                (heat_tree_options [] false
                   {| log_scaling := true;
                      min_value_option := Some double_0_01;
                      max_value_option := None;
                      mask_value_option := None |} false)
                {| tree := star; total_masses := [0; 1; 3]%float |} in
   out_warnings out = [] /\
   min_value (out_norm out) = double_0_01 /\
   out_masses out !! 0 = Some double_0_005).
Proof.
  split.
  - exact (proj1
      (normalize_colors_non_positive ParentTree (PlacedSample float)
         example_norm example_autoscale
         (heat_tree_options [] false (no_overrides true) false)
         {| tree := star; total_masses := [0; 1; 3]%float |}
         eq_refl eq_refl) (conj eq_refl eq_refl)).
  - pose proof
      (normalize_colors_non_positive ParentTree (PlacedSample float)
         example_norm example_autoscale
         (heat_tree_options [] false
            {| log_scaling := true;
               min_value_option := Some double_0_01;
               max_value_option := None;
               mask_value_option := None |} false)
         {| tree := star; total_masses := [0; 1; 3]%float |}
         eq_refl eq_refl) as (_ & Hrewrite & Hmin).
    destruct Hrewrite as (Hwarn & _); [left; by eexists|].
    destruct (Hmin double_0_01 eq_refl) as (Hfinal & Hhalf).
    split; [exact Hwarn|]. split; [exact Hfinal|].
    exact (Hhalf 0 0%float eq_refl eq_refl).
Defined.

Definition file_d : JplaceFile (PlacedSample float) :=
  {| file_path := "d.jplace";
     sample := {| placed_tree := star; placed_masses := [1; 2; 3]%float |} |}.

(** After [file_a], neither [file_b], with another tree, nor [file_d],
    with a longer mass vector, is accepted. *)
Lemma differing_samples_abort_witness :
  is_Ok (heat_tree_example
           (heat_tree_options [file_a; file_b] false (no_overrides false) false)
           ([file_a] ++ file_b :: [])) = false /\
  is_Ok (heat_tree_example
           (heat_tree_options [file_a; file_d] false (no_overrides false) false)
           ([file_a] ++ file_d :: [])) = false.
Proof.
  pose proof
    (differing_samples_abort
       ParentTree (PlacedSample float) None ParentTree_empty placed_tree
       ParentTree_compatible placed_masses example_norm example_autoscale)
    as (Htree & Hsize & _).
  split.
  - exact (Htree
             (heat_tree_options [file_a; file_b] false (no_overrides false) false)
             [file_a] file_b []
             {| tree := star; total_masses := [1; 2]%float |}
             eq_refl eq_refl eq_refl).
  - apply (Hsize
             (heat_tree_options [file_a; file_d] false (no_overrides false) false)
             [file_a] file_d []
             {| tree := star; total_masses := [1; 2]%float |}
             eq_refl eq_refl).
    simpl. discriminate.
Defined.

(** Two files over the tree [star]; the second iteration enters the
    critical region first, and it alone builds the matrices. *)
Lemma matrices_built_once_witness :
  exists st,
    load_files ParentTree (PlacedSample float) placed_tree (list (list nat))
      example_distance_matrix example_side_matrix example_histogram_set
      (nhd_options [file_a; file_c])
      [CalculateMatrices 1; CalculateMatrices 0;
       FillHistograms 0; FillHistograms 1]
      (prepare_storage (PlacedSample float) (list (list nat)) []
         (nhd_options [file_a; file_c]))
    = Ok st /\
    builders st = [1] /\
    node_distances st = example_distance_matrix star.
Proof.
  destruct
    (matrices_built_once ParentTree (PlacedSample float) placed_tree
       (list (list nat)) [] example_distance_matrix example_side_matrix
       example_histogram_set
       (nhd_options [file_a; file_c])
       [CalculateMatrices 1; CalculateMatrices 0;
        FillHistograms 0; FillHistograms 1]
       eq_refl eq_refl (Nat.lt_0_succ 1))
    as (fi0 & f0 & Hhead & Hf0 & Hprefix & _).
  injection Hhead as <-. injection Hf0 as <-.
  eexists. split; [reflexivity|].
  destruct (Hprefix
    [CalculateMatrices 1; CalculateMatrices 0;
     FillHistograms 0; FillHistograms 1] [] _ eq_refl
    ltac:(discriminate) eq_refl) as (Hb & _ & Hd & _).
  split; [exact Hb|exact Hd].
Defined.



Lemma example_histogram_distance_nonnegative (lhs rhs : list (list nat)) :
  dle (lit_0 : float) (example_histogram_distance lhs rhs) = true.
Proof.
  unfold example_histogram_distance. by destruct (bool_decide (lhs = rhs)).
Defined.

(** The distances of three histogram sets. *)
Lemma node_histogram_distance_symmetric_witness :
  let M := node_histogram_distance (D:=float) (list (list nat))
             example_histogram_distance
             [[[2; 2]; [0; 0]]; [[1; 1]; [1; 1]]; [[2; 2]; [0; 0]]] in
  rows M = 3 /\ cols M = 3 /\
  forall i j, i < 3 -> j < 3 ->
    exists v w, Matrix_at M i j = Some v /\ Matrix_at M j i = Some w /\
                v = w /\ dle lit_0 v = true /\
                Matrix_at M i i = Some lit_0.
Proof.
  exact (proj1
    (node_histogram_distance_symmetric
       ParentTree (PlacedSample float) placed_tree (list (list nat)) []
       example_distance_matrix example_side_matrix example_histogram_set
       example_histogram_distance
       [[[2; 2]; [0; 0]]; [[1; 1]; [1; 1]]; [[2; 2]; [0; 0]]]
       eq_refl example_histogram_distance_nonnegative)).
Defined.

(** Both commands without files. *)
Lemma no_files_no_exception_witness :
  heat_tree_example (heat_tree_options [] true (no_overrides true) false) []
  = Ok (normalize_colors ParentTree (PlacedSample float)
          example_norm example_autoscale
          (heat_tree_options [] true (no_overrides true) false)
          {| tree := None; total_masses := [] |}) /\
  nhd_example (nhd_options []) []
  = Ok (node_histogram_distance (list (list nat))
          example_histogram_distance []).
Proof.
  pose proof
    (no_files_no_exception
       ParentTree (PlacedSample float) None ParentTree_empty placed_tree
       ParentTree_compatible placed_masses example_norm example_autoscale
       (list (list nat)) [] example_distance_matrix example_side_matrix
       example_histogram_set example_histogram_distance)
    as (Hheat & Hnhd).
  split.
  - exact (Hheat (heat_tree_options [] true (no_overrides true) false) []
             eq_refl (perm_nil _)).
  - exact (proj1 (Hnhd (nhd_options []) [] eq_refl eq_refl)).
Defined.

(** Three masses 0, of sum 0. *)
Lemma normalize_relative_zero_sum_witness :
  Forall (fun v => PrimFloat.is_finite v = false)
         (normalize_relative true [0; 0; 0]%float).
Proof.
  exact (proj1 (proj2
    (normalize_relative_zero_sum
       ParentTree (PlacedSample float) None ParentTree_empty placed_tree
       ParentTree_compatible placed_masses example_norm example_autoscale
       [0; 0; 0]%float)) eq_refl).
Defined.

(** The run over [file_c], whose masses are 0, with relative masses: it
    ends without an exception, and its masses are not numbers. *)
Example heat_tree_relative_zero_masses :
  match heat_tree_example
          (heat_tree_options [file_c] true (no_overrides false) false)
          [file_c] with
  | Ok out => out_masses out = [nan; nan]
  | Throw _ => False
  end.
Proof. reflexivity. Qed.

(** ** Rounding in binary64 *)

(** The last place of a sum depends on the order of its terms, and six
    equal masses have relative masses that add up to the double below
    1. *)
Example binary64_order_of_files :
  read_and_accumulate ParentTree (PlacedSample float) ParentTree_empty
    placed_tree ParentTree_compatible placed_masses
    [one_edge 9007199254740992; one_edge 1; one_edge 1]
    (prepare_results ParentTree None)
  = Ok {| tree := Some [0]; total_masses := [9007199254740992%float] |} /\
  read_and_accumulate ParentTree (PlacedSample float) ParentTree_empty
    placed_tree ParentTree_compatible placed_masses
    [one_edge 1; one_edge 1; one_edge 9007199254740992]
    (prepare_results ParentTree None)
  = Ok {| tree := Some [0]; total_masses := [9007199254740994%float] |}.
Proof. split; reflexivity. Qed.

Example binary64_relative_sum :
  accumulate_sum (normalize_relative true [1; 1; 1; 1; 1; 1]%float)
  = 0x1.fffffffffffffp-1%float.
Proof. reflexivity. Qed.

(** ** The further properties at these inputs *)

Definition files_a_c : list (JplaceFile (PlacedSample float)) :=
  [file_a; file_c].

Definition linear_options (files : list (JplaceFile (PlacedSample float)))
  : HeatTreeOptions (PlacedSample float) :=
  heat_tree_options files false (no_overrides false) false.

(** [file_a] and [file_c] have the tree [star]. *)
Lemma reference_tree_of_first_file_witness :
  exists out,
    heat_tree_example (linear_options files_a_c) [file_a; file_c] = Ok out /\
    out_tree out = star /\
    forall g, g ∈ [file_c] ->
      ParentTree_compatible star (placed_tree (sample g)) = true.
Proof.
  eexists. split; [reflexivity|].
  exact (reference_tree_of_first_file
           ParentTree (PlacedSample float) None ParentTree_empty placed_tree
           ParentTree_compatible placed_masses example_norm example_autoscale
           (linear_options files_a_c) file_a [file_c] _
           eq_refl eq_refl eq_refl).
Defined.

(** The loop over [file_a] and [file_b] throws at [file_b]. *)
Lemma accumulation_throws_at_witness :
  exists e,
    read_and_accumulate ParentTree (PlacedSample float) ParentTree_empty
      placed_tree ParentTree_compatible placed_masses [file_a; file_b]
      (prepare_results ParentTree None) = Throw e /\
    e = differing_reference_trees /\
    exists pre f post acc,
      [file_a; file_b] = pre ++ f :: post /\
      read_and_accumulate ParentTree (PlacedSample float) ParentTree_empty
        placed_tree ParentTree_compatible placed_masses pre
        (prepare_results ParentTree None) = Ok acc /\
      ((ParentTree_empty (tree acc) = false /\
        ParentTree_compatible (tree acc) (placed_tree (sample f)) = false) \/
       (vector_empty (total_masses acc) = false /\
        length (total_masses acc) <> length (placed_masses (sample f)))).
Proof.
  exists differing_reference_trees. split; [reflexivity|].
  exact (accumulation_throws_at
           ParentTree (PlacedSample float) None ParentTree_empty placed_tree
           ParentTree_compatible placed_masses
           [file_a; file_b] differing_reference_trees eq_refl).
Defined.

Lemma accepted_mass_vectors_have_one_length_witness :
  exists acc,
    read_and_accumulate ParentTree (PlacedSample float) ParentTree_empty
      placed_tree ParentTree_compatible placed_masses files_a_c
      (prepare_results ParentTree None) = Ok acc /\
    forall f, f ∈ files_a_c ->
      placed_masses (sample f) = [] \/
      length (placed_masses (sample f)) = length (total_masses acc).
Proof.
  eexists. split; [reflexivity|].
  exact (accepted_mass_vectors_have_one_length
           ParentTree (PlacedSample float) None ParentTree_empty placed_tree
           ParentTree_compatible placed_masses files_a_c _ eq_refl).
Defined.

(** The second entry of the masses of [file_a] and [file_c]. *)
Lemma accumulated_entry_is_sum_witness :
  exists xs,
    Forall2 (fun g x => placed_masses (sample g) !! 1 = Some x) [file_c] xs /\
    [1; 2]%float !! 1 = Some (foldl PrimFloat.add 2%float xs).
Proof.
  exact (accumulated_entry_is_sum
           ParentTree (PlacedSample float) None ParentTree_empty placed_tree
           ParentTree_compatible placed_masses file_a [file_c]
           {| tree := star; total_masses := [1; 2]%float |} 1 2%float
           eq_refl eq_refl eq_refl).
Defined.

(** Masses 0, 1 and 3 without log scaling, with clip-under. *)
Lemma normalize_colors_linear_witness :
  let out := normalize_colors ParentTree (PlacedSample float)
               example_norm example_autoscale
               (heat_tree_options [] false (no_overrides false) true)
               {| tree := star; total_masses := [0; 1; 3]%float |} in
  out_masses out = [0; 1; 3]%float /\
  out_warnings out = [] /\
  min_value (out_norm out) = 0%float /\
  max_value (out_norm out) = 3%float.
Proof.
  exact (normalize_colors_linear ParentTree (PlacedSample float)
           example_norm example_autoscale
           (heat_tree_options [] false (no_overrides false) true)
           {| tree := star; total_masses := [0; 1; 3]%float |} eq_refl).
Defined.

(** Masses 1 and 3 under log scaling, with clip-under. *)
Lemma normalize_colors_log_positive_witness :
  let out := normalize_colors ParentTree (PlacedSample float)
               example_norm example_autoscale
               (heat_tree_options [] false (no_overrides true) true)
               {| tree := star; total_masses := [1; 3]%float |} in
  out_masses out = [1; 3]%float /\
  out_warnings out = [] /\
  min_value (out_norm out) = 1%float /\
  max_value (out_norm out) = 3%float.
Proof.
  exact (normalize_colors_log_positive ParentTree (PlacedSample float)
           example_norm example_autoscale
           (heat_tree_options [] false (no_overrides true) true)
           {| tree := star; total_masses := [1; 3]%float |}
           eq_refl eq_refl).
Defined.

Lemma run_heat_tree_shape_witness :
  exists out acc,
    heat_tree_example
      (heat_tree_options files_a_c true (no_overrides true) true) files_a_c
    = Ok out /\
    read_and_accumulate ParentTree (PlacedSample float) ParentTree_empty
      placed_tree ParentTree_compatible placed_masses files_a_c
      (prepare_results ParentTree None) = Ok acc /\
    out_tree out = tree acc /\
    length (out_masses out) = length (total_masses acc).
Proof.
  eexists.
  destruct (run_heat_tree_shape
              ParentTree (PlacedSample float) None ParentTree_empty placed_tree
              ParentTree_compatible placed_masses example_norm
              example_autoscale
              (heat_tree_options files_a_c true (no_overrides true) true)
              files_a_c _ eq_refl) as (acc & Hloop & Htree & Hlen).
  exists acc. split; [reflexivity|]. split; [exact Hloop|].
  split; [exact Htree|exact Hlen].
Defined.

Definition steps_1_0_0_1 : list LoopStep :=
  [CalculateMatrices 1; CalculateMatrices 0;
   FillHistograms 0; FillHistograms 1].

(** [file_b], with the tree [chain], enters first: the histograms of
    [file_a], with the tree [star], are taken against the matrices of
    [chain]. *)
Lemma histograms_against_first_matrices_witness :
  exists st,
    load_files ParentTree (PlacedSample float) placed_tree (list (list nat))
      example_distance_matrix example_side_matrix example_histogram_set
      (nhd_options [file_a; file_b]) steps_1_0_0_1
      (prepare_storage (PlacedSample float) (list (list nat)) []
         (nhd_options [file_a; file_b]))
    = Ok st /\
    length (hist_vecs st) = 2 /\
    forall fi f, [file_a; file_b] !! fi = Some f ->
      exists h,
        example_histogram_set (sample f) (example_distance_matrix chain)
          (example_side_matrix chain) 4 = Ok h /\
        hist_vecs st !! fi = Some h.
Proof.
  eexists. split; [reflexivity|].
  exact (histograms_against_first_matrices
           ParentTree (PlacedSample float) placed_tree (list (list nat)) []
           example_distance_matrix example_side_matrix example_histogram_set
           (nhd_options [file_a; file_b]) steps_1_0_0_1 1 file_b _
           eq_refl eq_refl eq_refl eq_refl eq_refl).
Defined.

(** [file_a] and [file_c] have the tree [star], and so the same
    matrices. *)
Lemma run_nhd_as_sequential_witness :
  interleaving 2 (sequential 2) = true /\
  match nhd_example (nhd_options files_a_c) steps_1_0_0_1,
        nhd_example (nhd_options files_a_c) (sequential 2) with
  | Ok result, Ok result' => result = result'
  | Throw _, Throw _ => True
  | _, _ => False
  end.
Proof.
  refine (run_nhd_as_sequential
            ParentTree (PlacedSample float) placed_tree (list (list nat)) []
            example_distance_matrix example_side_matrix example_histogram_set
            example_histogram_distance
            (nhd_options files_a_c)
            (example_distance_matrix star) (example_side_matrix star)
            steps_1_0_0_1 _ eq_refl eq_refl).
  repeat constructor.
Defined.

(** Masses 0, 1 and 3 under log scaling with a minimum of 0.01, whose
    half is above 0. *)
Lemma rewritten_masses_above_zero_witness :
  Forall (fun v => PrimFloat.leb v 0 = false)
    (out_masses
       (normalize_colors ParentTree (PlacedSample float)
          example_norm example_autoscale
          (heat_tree_options [] false
             {| log_scaling := true;
                min_value_option := Some double_0_01;
                max_value_option := None;
                mask_value_option := None |} false)
          {| tree := star; total_masses := [0; 1; 3]%float |})).
Proof.
  refine (rewritten_masses_above_zero ParentTree (PlacedSample float)
            example_norm example_autoscale
            (heat_tree_options [] false
               {| log_scaling := true;
                  min_value_option := Some double_0_01;
                  max_value_option := None;
                  mask_value_option := None |} false)
            {| tree := star; total_masses := [0; 1; 3]%float |}
            eq_refl eq_refl _ eq_refl).
  left. by eexists.
Defined.

(** Masses 0 and 0 under log scaling with clip-under. *)
Lemma log_scaling_of_zero_masses_witness :
  let out := normalize_colors ParentTree (PlacedSample float)
               example_norm example_autoscale
               (heat_tree_options [] false (no_overrides true) true)
               {| tree := star; total_masses := [0; 0]%float |} in
  min_value (out_norm out) = 0%float /\
  out_warnings out = [] /\
  forall i v, [0; 0]%float !! i = Some v ->
    PrimFloat.leb v 0 = true -> out_masses out !! i = Some 0%float.
Proof.
  exact (log_scaling_of_zero_masses ParentTree (PlacedSample float)
           example_norm example_autoscale
           (heat_tree_options [] false (no_overrides true) true)
           {| tree := star; total_masses := [0; 0]%float |}
           eq_refl eq_refl eq_refl eq_refl eq_refl).
Defined.
